(** * NodeBB user deletion (src/user/delete.js): a shallow embedding

    The module exports [User.delete], [User.deleteContent] and
    [User.deleteAccount].  They orchestrate a key-value store ([db]) and a
    number of collaborators (posts, topics, messaging, groups, flags,
    plugins, rimraf, ...) and keep a closure-private object
    [deletesInProgress] that marks the uids whose deletion is running.

    The embedding is a state-and-exception monad over a [World] made of the
    guard object, the store and a log of every store operation and
    collaborator call in the order in which they take effect.  The collaborators
    are not part of the file: they are a parameter of the development (the
    [handle] function of section [User]); the store operations and the
    batch processor are modelled from the specification.

    A uid is represented by its string form: the file uses a uid as a
    property key, inside template literals and as the argument of
    [parseInt], each of which converts it to a string, and otherwise hands
    it on to the store and the collaborators.  The [winston.verbose] calls
    are not modelled. *)

From Stdlib Require Import Ascii String ZArith Lia.
From stdpp Require Import gmap strings list fin_maps pretty.

Open Scope Z_scope.

(** ** JavaScript values *)

Module JS.

(** The values that reach this file: [undefined], strings and integral
    numbers.  A string is kept as the bytes of its UTF-8 encoding.  A number
    [VNum z] is a safe integer ([Number.isSafeInteger]: |z| < 2^53), the
    range in which a double is the integer it prints as; the cardinalities
    and counters the file handles are of that kind. *)
Inductive value :=
  | VUndef
  | VStr (s : string)
  | VNum (z : Z).

#[global] Instance value_eq_dec : EqDecision value.
Proof. solve_decision. Defined.

(** ToBoolean *)
Definition truthy (v : value) : bool :=
  match v with
  | VUndef => false
  | VStr s => negb (bool_decide (s = ""))
  | VNum z => negb (z =? 0)
  end.

(** ToString *)
Definition toString (v : value) : string :=
  match v with
  | VUndef => "undefined"
  | VStr s => s
  | VNum z => pretty z
  end.

(** [parseInt(s, 10)]: leading white space is skipped, then an optional
    sign, then the longest run of decimal digits; anything after it is
    ignored.  No digit at all gives NaN, here [None].

    White space is what the language calls [StrWhiteSpaceChar]: TAB, LF, VT,
    FF, CR and SP, and beyond ASCII the code points U+00A0, U+1680,
    U+2000 to U+200A, U+2028, U+2029, U+202F, U+205F, U+3000 and U+FEFF,
    recognised here by their UTF-8 encodings. *)
Definition is_byte (a : ascii) (n : N) : bool := (N_of_ascii a =? n)%N.

(** The first byte of a three-byte white-space character. *)
Definition space_lead (a : ascii) : bool :=
  is_byte a 225 || is_byte a 226 || is_byte a 227 || is_byte a 239.

Definition space3 (a b c : ascii) : bool :=
  let cn := N_of_ascii c in
  (* U+1680 *)
  (is_byte a 225 && is_byte b 154 && is_byte c 128) ||
  (* U+2000 .. U+200A, U+2028, U+2029, U+202F *)
  (is_byte a 226 && is_byte b 128 &&
   (((128 <=? cn) && (cn <=? 138))%N || is_byte c 168 || is_byte c 169 ||
    is_byte c 175)) ||
  (* U+205F *)
  (is_byte a 226 && is_byte b 129 && is_byte c 159) ||
  (* U+3000 *)
  (is_byte a 227 && is_byte b 128 && is_byte c 128) ||
  (* U+FEFF *)
  (is_byte a 239 && is_byte b 187 && is_byte c 191).

Fixpoint skip_space (s : string) : string :=
  match s with
  | String a s1 =>
      if Ascii.is_space a then skip_space s1
      else if is_byte a 194 then
        (* U+00A0 *)
        match s1 with
        | String b s2 => if is_byte b 160 then skip_space s2 else s
        | EmptyString => s
        end
      else if space_lead a then
        match s1 with
        | String b (String c s3) => if space3 a b c then skip_space s3 else s
        | _ => s
        end
      else s
  | EmptyString => EmptyString
  end.

Fixpoint digits (s : string) (acc : option Z) : option Z :=
  match s with
  | String a s' =>
      match Ascii.is_nat a with
      | Some d => digits s' (Some (10 * default 0 acc + Z.of_nat d))
      | None => acc
      end
  | EmptyString => acc
  end.

(** The integer the digits denote, before it becomes a Number. *)
Definition parseInt (s : string) : option Z :=
  match skip_space s with
  | String "-"%char s' => Z.opp <$> digits s' None
  | String "+"%char s' => digits s' None
  | s' => digits s' None
  end.

(** The Number [parseInt] returns for the integer [n]: the double nearest
    to it, ties to the even significand, as an integer; [2^1024] and its
    opposite stand for the two infinities.  An integer up to 2^53 in
    absolute value is its own double. *)
Definition to_double (n : Z) : Z :=
  let a := Z.abs n in
  let e := Z.log2 a - 52 in
  if e <=? 0 then n else
  let q := a / 2 ^ e in
  let r := a mod 2 ^ e in
  let half := 2 ^ (e - 1) in
  let q' := if (half <? r) || ((r =? half) && Z.odd q) then q + 1 else q in
  let m := q' * 2 ^ e in
  Z.sgn n * (if 2 ^ 1024 <=? m then 2 ^ 1024 else m).

(** [x <= 0] on the result of [parseInt]: any comparison with NaN is false;
    the double nearest to an integer has its sign. *)
Definition le0 (x : option Z) : bool :=
  match x with Some n => n <=? 0 | None => false end.

(** [x === y] on results of [parseInt]: NaN is not equal to itself, and two
    integers are equal when their doubles are. *)
Definition strict_eq (x y : option Z) : bool :=
  match x, y with
  | Some a, Some b => to_double a =? to_double b
  | _, _ => false
  end.

(** [String.prototype.toLowerCase] on the letters A to Z; every other byte,
    and so every character outside ASCII, is kept as it is. *)
Definition lower_ascii (a : ascii) : ascii :=
  let n := nat_of_ascii a in
  if ((65 <=? n) && (n <=? 90))%nat then ascii_of_nat (n + 32) else a.

Fixpoint toLowerCase (s : string) : string :=
  match s with
  | String a s' => String (lower_ascii a) (toLowerCase s')
  | EmptyString => EmptyString
  end.

(** The own property names of [Object.prototype]: a property read on a plain
    object ([{}]) finds them when the object has no own property of that
    name. *)
Definition Object_prototype : list string :=
  [ "constructor"; "__defineGetter__"; "__defineSetter__"; "hasOwnProperty";
    "__lookupGetter__"; "__lookupSetter__"; "isPrototypeOf";
    "propertyIsEnumerable"; "toString"; "valueOf"; "__proto__";
    "toLocaleString" ].

Definition inherited (k : string) : bool := bool_decide (k ∈ Object_prototype).

End JS.

Import JS.

(** ** The store *)

(** Modelled from the spec: the [db] module (src/database) is not part of
    the file.  The specification lists its contract (section 6): ordered-set
    range read and remove (single and bulk-keyed), set remove, object get,
    set-field and delete, object-field decrement, batch key deletion.  A
    sorted set is kept as the list of its members in rank order (scores are
    not modelled), an object as a finite map from field names to values, a
    plain set as the list of its members.  All keys live in one key space:
    deleting a key deletes whatever is stored under it.

    Every operation here is one the store answers; a request the store
    rejects (section 7 of the specification: the error propagates to the
    caller) is outside the model.

    Requests that are in flight together reach the store in an order the
    file does not control.  [overtakes key] is the store's choice for the
    one place where that shows: whether a cardinality read of [key], issued
    while a removal issued just before it is still in flight, is answered
    before the removal is applied. *)
Record Store := mkStore {
  zsets : gmap string (list string);
  hashes : gmap string (gmap string value);
  sets : gmap string (list string);
  overtakes : string → bool
}.

(** A store that answers requests in the order it receives them. *)
Definition in_order : string → bool := λ _, false.

(** Modelled from the spec: the effect of each store operation on a
    [Store]. *)
Module Db.

Definition members (s : Store) (key : string) : list string :=
  default [] (zsets s !! key).

(** Redis-style inclusive range; a negative index counts from the end. *)
Definition index (len i : Z) : Z := if i <? 0 then Z.max 0 (len + i) else i.

Definition range (l : list string) (start stop : Z) : list string :=
  let len := Z.of_nat (length l) in
  let a := index len start in
  let b := index len stop in
  take (Z.to_nat (b - a + 1)) (drop (Z.to_nat a) l).

Definition without (v : string) (l : list string) : list string :=
  filter (λ m, m ≠ v) l.

Definition zrem (key v : string) (s : Store) : Store :=
  mkStore (alter (without v) key (zsets s)) (hashes s) (sets s) (overtakes s).

Definition srem (key v : string) (s : Store) : Store :=
  mkStore (zsets s) (hashes s) (alter (without v) key (sets s)) (overtakes s).

Definition del (key : string) (s : Store) : Store :=
  mkStore (delete key (zsets s)) (delete key (hashes s)) (delete key (sets s))
          (overtakes s).

Definition getObject (s : Store) (key : string) : option (gmap string value) :=
  hashes s !! key.

Definition setField (key field : string) (v : value) (s : Store) : Store :=
  mkStore (zsets s)
          (<[key := <[field := v]> (default ∅ (hashes s !! key))]> (hashes s))
          (sets s) (overtakes s).

Definition card (s : Store) (key : string) : Z :=
  Z.of_nat (length (members s key)).

(** The field of an object as a property read sees it. *)
Definition prop (o : gmap string value) (field : string) : value :=
  default VUndef (o !! field).

Definition numeric (v : value) : Z :=
  match v with
  | VNum z => z
  | VStr s => default 0 (parseInt s)
  | VUndef => 0
  end.

Definition decrField (key field : string) (s : Store) : Store :=
  let o := default ∅ (hashes s !! key) in
  setField key field (VNum (numeric (prop o field) - 1)) s.

End Db.

(** ** Errors, store operations, collaborator calls *)

Inductive exn :=
  | Error (message : string)
  | TypeError (message : string).

#[global] Instance exn_eq_dec : EqDecision exn.
Proof. solve_decision. Defined.

Definition InvalidUser : exn := Error "[[error:invalid-uid]]".
Definition AlreadyDeleting : exn := Error "[[error:already-deleting]]".
Definition UserNotFound : exn := Error "[[error:no-user]]".

(** Calls into the modules this file requires but does not define. *)
Inductive Call :=
  | posts_purge (pids : list string) (callerUid : string)
  | topics_purge (tid callerUid : string)
  | User_deleteUpload (callerUid uid : string) (uploads : list string)
  | posts_removeFromQueue (id : value)
  | plugins_hooks_fire (hook uid : string) (userData : gmap string value)
  | posts_unvote (pid uid : string)
  | messaging_leaveRooms (uid : string) (roomIds : list string)
  | User_auth_revokeAllSessions (uid : string)
  | groups_leaveAllGroups (uid : string)
  | flags_resolveFlag (type id uid : string)
  | User_reset_cleanByUid (uid : string)
  | User_email_expireValidation (uid : string)
  | rimraf (path : string)
  | exec (command : string).

Inductive DbOp :=
  | db_sortedSetsRemove (keys : list string) (v : string)
  | db_sortedSetRemoveBulk (data : list (string * value))
  | db_getSortedSetRange (keys : list string) (start stop : Z)
  | db_getSortedSetMembers (key : string)
  | db_sortedSetCard (key : string)
  | db_getObject (key : string)
  | db_getObjects (keys : list string)
  | db_setObjectField (key field : string) (v : value)
  | db_decrObjectField (key field : string)
  | db_setRemove (key v : string)
  | db_setsRemove (keys : list string) (v : string)
  | db_delete (key : string)
  | db_deleteAll (keys : list string).

Inductive Event :=
  | Db (op : DbOp)
  | Ext (c : Call).

#[global] Instance Call_eq_dec : EqDecision Call.
Proof. solve_decision. Defined.
#[global] Instance DbOp_eq_dec : EqDecision DbOp.
Proof. solve_decision. Defined.
#[global] Instance Event_eq_dec : EqDecision Event.
Proof. solve_decision. Defined.

(** The phase tags the file writes into [deletesInProgress]:
    ['user.delete'] and ['user.deleteAccount']. *)
Inductive phase := user_delete | user_deleteAccount.

#[global] Instance phase_eq_dec : EqDecision phase.
Proof. solve_decision. Defined.

(** ** The world and the monad *)

Record World := mkWorld {
  deletesInProgress : gmap string phase;
  db : Store;
  log : list Event
}.

(** [Pending] is the outcome of a run whose loop budget is spent: the call
    has not settled. *)
Inductive outcome (A : Type) :=
  | Ok (a : A)
  | Throw (e : exn)
  | Pending.
Arguments Ok {A} a.
Arguments Throw {A} e.
Arguments Pending {A}.

Definition M (A : Type) : Type := World → outcome A * World.

Definition ret {A} (a : A) : M A := λ w, (Ok a, w).
Definition throw {A} (e : exn) : M A := λ w, (Throw e, w).
Definition pending {A} : M A := λ w, (Pending, w).
Definition bind {A B} (m : M A) (k : A → M B) : M B :=
  λ w, match m w with
       | (Ok a, w') => k a w'
       | (Throw e, w') => (Throw e, w')
       | (Pending, w') => (Pending, w')
       end.

Notation "'let*' x := m 'in' k" := (bind m (λ x, k))
  (at level 10, x name, m at level 100, k at level 200).
Notation "m >> k" := (bind m (λ _, k))
  (at level 100, k at level 200, right associativity).

Definition emit (e : Event) : M unit :=
  λ w, (Ok tt, mkWorld (deletesInProgress w) (db w) (log w ++ [e])).

(** A store operation: logged, then applied. *)
Definition store {A} (op : DbOp) (f : Store → A * Store) : M A :=
  emit (Db op) >>
  λ w, let '(a, s) := f (db w) in (Ok a, mkWorld (deletesInProgress w) s (log w)).

Definition query {A} (op : DbOp) (f : Store → A) : M A :=
  store op (λ s, (f s, s)).
Definition update (op : DbOp) (f : Store → Store) : M unit :=
  store op (λ s, (tt, f s)).

(** [async.eachSeries]: one item at a time, stopping at the first error. *)
Fixpoint eachSeries {A} (l : list A) (f : A → M unit) : M unit :=
  match l with
  | [] => ret tt
  | x :: l' => f x >> eachSeries l' f
  end.

Fixpoint mapSeries {A B} (l : list A) (f : A → M B) : M (list B) :=
  match l with
  | [] => ret []
  | x :: l' => let* y := f x in let* ys := mapSeries l' f in ret (y :: ys)
  end.

Definition lift {A} (r : exn + A) : M A :=
  match r with inl e => throw e | inr a => ret a end.

(** [_.uniq]: the first occurrence of each element is kept. *)
Fixpoint uniq (l : list string) : list string :=
  match l with
  | [] => []
  | x :: l' => x :: Db.without x (uniq l')
  end.

(** ** The store operations the file calls *)

(** Modelled from the spec: the functions of the [db] module the file
    calls, each logged under its name and applied to the store. *)
Module db_.

Definition sortedSetsRemove (keys : list string) (v : string) : M unit :=
  update (db_sortedSetsRemove keys v) (λ s, foldr (λ k, Db.zrem k v) s keys).

Definition sortedSetRemoveBulk (data : list (string * value)) : M unit :=
  update (db_sortedSetRemoveBulk data)
         (λ s, foldr (λ kv, Db.zrem kv.1 (toString kv.2)) s data).

Definition getSortedSetRange (key : string) (start stop : Z)
  : M (list string) :=
  query (db_getSortedSetRange [key] start stop)
        (λ s, Db.range (Db.members s key) start stop).

(** [db.getSortedSetRange] called with an array of keys: the members of all
    of them, merged. *)
Definition getSortedSetRangeOf (keys : list string) (start stop : Z)
  : M (list string) :=
  query (db_getSortedSetRange keys start stop)
        (λ s, Db.range (uniq (concat (map (Db.members s) keys))) start stop).

Definition getSortedSetMembers (key : string) : M (list string) :=
  query (db_getSortedSetMembers key) (λ s, Db.members s key).

Definition sortedSetCard (key : string) : M Z :=
  query (db_sortedSetCard key) (λ s, Db.card s key).

Definition getObject (key : string) : M (option (gmap string value)) :=
  query (db_getObject key) (λ s, Db.getObject s key).

Definition getObjects (keys : list string)
  : M (list (option (gmap string value))) :=
  query (db_getObjects keys) (λ s, map (Db.getObject s) keys).

Definition setObjectField (key field : string) (v : value) : M unit :=
  update (db_setObjectField key field v) (Db.setField key field v).

Definition decrObjectField (key field : string) : M unit :=
  update (db_decrObjectField key field) (Db.decrField key field).

Definition setRemove (key v : string) : M unit :=
  update (db_setRemove key v) (Db.srem key v).

Definition setsRemove (keys : list string) (v : string) : M unit :=
  update (db_setsRemove keys v) (λ s, foldr (λ k, Db.srem k v) s keys).

Definition delete (key : string) : M unit :=
  update (db_delete key) (Db.del key).

Definition deleteAll (keys : list string) : M unit :=
  update (db_deleteAll keys) (λ s, foldr Db.del s keys).

(** Not a request: the order in which the store will answer the requests
    that are about to be in flight together. *)
Definition overtaking : M (string → bool) := λ w, (Ok (overtakes (db w)), w).

End db_.

(** ** The guard object [deletesInProgress]

    A plain object used as a map.  A read finds the own entry, or else what
    [Object.prototype] supplies under that name; an assignment creates an
    own entry, except under ["__proto__"], whose setter ignores a string. *)
Module Guard.

Inductive read := Own (p : phase) | Inherited | Undefined.

Definition get (g : gmap string phase) (uid : string) : read :=
  match g !! uid with
  | Some p => Own p
  | None => if inherited uid then Inherited else Undefined
  end.

Definition truthy (r : read) : bool :=
  match r with Own _ | Inherited => true | Undefined => false end.

Definition marks (p : phase) (r : read) : bool :=
  match r with Own q => bool_decide (q = p) | _ => false end.

Definition set (uid : string) (p : phase) (g : gmap string phase)
  : gmap string phase :=
  if bool_decide (uid = "__proto__") then g else <[uid := p]> g.

Definition read_ (uid : string) : M read :=
  λ w, (Ok (get (deletesInProgress w) uid), w).

Definition assign (uid : string) (p : phase) : M unit :=
  λ w, (Ok tt, mkWorld (set uid p (deletesInProgress w)) (db w) (log w)).

Definition remove (uid : string) : M unit :=
  λ w, (Ok tt, mkWorld (delete uid (deletesInProgress w)) (db w) (log w)).

End Guard.

(** ** batch.processSortedSet *)

(** Modelled from the spec: src/batch.js is not part of the file; section
    4.2 gives 500 as the default batch size. *)
Definition DEFAULT_BATCH_SIZE : Z := 500.

Record Options := mkOptions {
  alwaysStartAt : option Z;
  batch : option Z
}.

Section Batch.
Context {S : Type}.
Variable setKey : string.
Variable process : S → list string → M S.
Variable options : Options.

Let size : Z := default DEFAULT_BATCH_SIZE (batch options).

(** Modelled from the spec: src/batch.js is not part of the file.  Section
    4.2: the processor "repeatedly fetches up to batchSize member IDs
    starting at the given offset, invokes handler(chunk) sequentially, and
    stops when a fetch returns fewer members than batchSize (end of set) or
    the set is empty"; handler errors abort the scan.  With [alwaysStartAt]
    every fetch after a full chunk starts at that offset again, otherwise at
    the next offset.  The local variables the handler captures are the
    accumulator [acc].  [fuel] bounds the number of fetches. *)
Fixpoint scan (fuel : nat) (start : Z) (acc : S) : M S :=
  match fuel with
  | O => pending
  | Datatypes.S fuel' =>
      let* ids := db_.getSortedSetRange setKey start (start + size - 1) in
      match ids with
      | [] => ret acc
      | _ =>
          let* acc' := process acc ids in
          if Z.of_nat (length ids) <? size then ret acc'
          else scan fuel' (default (start + size) (alwaysStartAt options)) acc'
      end
  end.

(** Modelled from the spec: the scan starts at offset 0. *)
Definition processSortedSet (fuel : nat) (acc : S) : M S := scan fuel 0 acc.
End Batch.

(** [path.join] of two strings, as the POSIX flavour of Node's [path]
    module computes it: the non-empty arguments are joined with a slash and
    the result is normalised.  Normalisation drops empty segments and
    [.] segments, lets a [..] segment cancel the segment before it (a
    leading [..] stays in a relative path and is dropped at the root) and
    keeps a leading and a trailing slash. *)
Fixpoint segments (s : string) : list string :=
  match s with
  | EmptyString => [EmptyString]
  | String c s' =>
      if Ascii.eqb c "/" then EmptyString :: segments s'
      else match segments s' with
           | seg :: rest => String c seg :: rest
           | [] => [String c EmptyString]
           end
  end.

(** One segment onto the stack of segments kept so far (last one first). *)
Definition normalize_step (allowAboveRoot : bool) (res : list string)
    (seg : string) : list string :=
  if bool_decide (seg = "" ∨ seg = ".") then res
  else if bool_decide (seg = "..") then
    match res with
    | top :: rest =>
        if bool_decide (top = "..")
        then (if allowAboveRoot then seg :: res else res)
        else rest
    | [] => if allowAboveRoot then [seg] else []
    end
  else seg :: res.

Fixpoint join_segments (l : list string) : string :=
  match l with
  | [] => ""
  | [seg] => seg
  | seg :: l' => seg +:+ "/" +:+ join_segments l'
  end.

Fixpoint ends_with_slash (s : string) : bool :=
  match s with
  | EmptyString => false
  | String c EmptyString => Ascii.eqb c "/"
  | String _ s' => ends_with_slash s'
  end.

Definition starts_with_slash (s : string) : bool :=
  match s with String c _ => Ascii.eqb c "/" | EmptyString => false end.

Definition path_normalize (p : string) : string :=
  if bool_decide (p = "") then "." else
  let isAbsolute := starts_with_slash p in
  let trailingSeparator := ends_with_slash p in
  let body :=
    join_segments
      (rev (foldl (normalize_step (negb isAbsolute)) [] (segments p))) in
  if bool_decide (body = "") then
    (if isAbsolute then "/" else if trailingSeparator then "./" else ".")
  else
    (if isAbsolute then "/" else "") +:+ body +:+
    (if trailingSeparator then "/" else "").

Definition path_join (a b : string) : string :=
  let joined :=
    if bool_decide (a = "") then b
    else if bool_decide (b = "") then a
    else a +:+ "/" +:+ b in
  if bool_decide (joined = "") then "." else path_normalize joined.

(** A method call [v.toLowerCase()]: only strings have the method. *)
Definition toLowerCase_of (v : value) : exn + string :=
  match v with
  | VStr s => inr (toLowerCase s)
  | VUndef => inl (TypeError "Cannot read properties of undefined (reading 'toLowerCase')")
  | VNum _ => inl (TypeError "toLowerCase is not a function")
  end.

(** ** The module *)

Section User.

(** The collaborators: what a call does to the store, or the error it
    throws. *)
Variable handle : Call → Store → exn + Store.
(** [nconf.get('upload_path')] *)
Variable upload_path : string.

(** An awaited call of a collaborator. *)
Definition call (c : Call) : M unit :=
  emit (Ext c) >>
  λ w, match handle c (db w) with
       | inl e => (Throw e, w)
       | inr s => (Ok tt, mkWorld (deletesInProgress w) s (log w))
       end.

(** A call that is started and not awaited: [exec] with a callback that
    only logs. *)
Definition spawn (c : Call) : M unit := emit (Ext c).

Definition deleteImages (uid : string) : M unit :=
  let folder := path_join upload_path "profile" in
  let command := "find " +:+ folder +:+ " -maxdepth 1 -type f | wc -l" in
  spawn (exec command) >>
  call (rimraf (path_join folder (uid +:+ "-profilecover*"))) >>
  call (rimraf (path_join folder (uid +:+ "-profileavatar*"))).

Definition deletePosts (fuel : nat) (callerUid uid : string) : M unit :=
  processSortedSet ("uid:" +:+ uid +:+ ":posts")
    (λ _ pids, call (posts_purge pids callerUid))
    (mkOptions (Some 0) (Some 500)) fuel tt.

Definition deleteTopics (fuel : nat) (callerUid uid : string) : M unit :=
  processSortedSet ("uid:" +:+ uid +:+ ":topics")
    (λ _ ids, eachSeries ids (λ tid, call (topics_purge tid callerUid)))
    (mkOptions (Some 0) None) fuel tt.

Definition deleteUploads (callerUid uid : string) : M unit :=
  let* uploads := db_.getSortedSetMembers ("uid:" +:+ uid +:+ ":uploads") in
  call (User_deleteUpload callerUid uid uploads).

(** [data.filter(d => parseInt(d.uid, 10) === parseInt(uid, 10)).map(d => d.id)];
    [db.getObjects] answers [null] for a key with no object, and reading
    [d.uid] of [null] throws. *)
Definition matches (uid : string) (d : gmap string value) : bool :=
  strict_eq (parseInt (toString (Db.prop d "uid"))) (parseInt uid).

Fixpoint userQueuedIds (uid : string) (data : list (option (gmap string value)))
  : exn + list value :=
  match data with
  | [] => inr []
  | None :: _ => inl (TypeError "Cannot read properties of null (reading 'uid')")
  | Some d :: data' =>
      match userQueuedIds uid data' with
      | inl e => inl e
      | inr ids => inr (if matches uid d then Db.prop d "id" :: ids else ids)
      end
  end.

Definition deleteQueued (fuel : nat) (uid : string) : M unit :=
  let* deleteIds :=
    processSortedSet "post:queue"
      (λ deleteIds ids,
         let* data := db_.getObjects (map (λ id, "post:queue:" +:+ id) ids) in
         let* userQueued := lift (userQueuedIds uid data) in
         ret (deleteIds ++ userQueued))
      (mkOptions None (Some 500)) fuel [] in
  eachSeries deleteIds (λ id, call (posts_removeFromQueue id)).

Definition deleteContent (fuel : nat) (callerUid uid : string) : M unit :=
  if le0 (parseInt uid) then throw InvalidUser else
  let* entry := Guard.read_ uid in
  if Guard.truthy entry then throw AlreadyDeleting else
  Guard.assign uid user_delete >>
  deleteImages uid >>
  deletePosts fuel callerUid uid >>
  deleteTopics fuel callerUid uid >>
  deleteUploads callerUid uid >>
  deleteQueued fuel uid >>
  Guard.remove uid.

(** The array literal of [removeFromSortedSets]. *)
Definition removeFromSortedSets_keys : list string :=
  [ "users:joindate"; "users:postcount"; "users:reputation";
    "users:banned"; "users:banned:expire"; "users:flags"; "users:online";
    "digest:day:uids"; "digest:week:uids"; "digest:biweek:uids";
    "digest:month:uids" ].

Definition removeFromSortedSets (uid : string) : M unit :=
  db_.sortedSetsRemove removeFromSortedSets_keys uid.

Definition deleteUserFromFollowedTopics (uid : string) : M unit :=
  let* tids := db_.getSortedSetRange ("uid:" +:+ uid +:+ ":followed_tids") 0 (-1) in
  db_.setsRemove (map (λ tid, "tid:" +:+ tid +:+ ":followers") tids) uid.

Definition deleteUserFromIgnoredTopics (uid : string) : M unit :=
  let* tids := db_.getSortedSetRange ("uid:" +:+ uid +:+ ":ignored_tids") 0 (-1) in
  db_.setsRemove (map (λ tid, "tid:" +:+ tid +:+ ":ignorers") tids) uid.

Definition deleteUserFromFollowedTags (uid : string) : M unit :=
  let* tags := db_.getSortedSetRange ("uid:" +:+ uid +:+ ":followed_tags") 0 (-1) in
  db_.sortedSetsRemove (map (λ tag, "tag:" +:+ tag +:+ ":followers") tags) uid.

Definition deleteVotes (uid : string) : M unit :=
  let* upvotedPids := db_.getSortedSetRange ("uid:" +:+ uid +:+ ":upvote") 0 (-1) in
  let* downvotedPids := db_.getSortedSetRange ("uid:" +:+ uid +:+ ":downvote") 0 (-1) in
  let pids := uniq (filter (λ pid, pid ≠ "") (upvotedPids ++ downvotedPids)) in
  eachSeries pids (λ pid, call (posts_unvote pid uid)).

Definition deleteChats (uid : string) : M unit :=
  let* roomIds :=
    db_.getSortedSetRangeOf ["uid:" +:+ uid +:+ ":chat:rooms"; "chat:rooms:public"] 0 (-1) in
  call (messaging_leaveRooms uid roomIds).

Definition deleteUserIps (uid : string) : M unit :=
  let* ips := db_.getSortedSetRange ("uid:" +:+ uid +:+ ":ip") 0 (-1) in
  db_.sortedSetsRemove (map (λ ip, "ip:" +:+ ip +:+ ":uid") ips) uid >>
  db_.delete ("uid:" +:+ uid +:+ ":ip").

(** [updateCount(uids, name, fieldName)] runs its body for all [uids] at
    once ([async.each]): every body issues [db.sortedSetCard] and is
    suspended; it issues [db.setObjectField] when the count has arrived.
    The two halves are [counts] and [persist].
    [count = parseInt(count, 10) || 0]. *)
Definition counts (uids : list string) (name : string) : M (list (string * Z)) :=
  mapSeries uids (λ uid,
    let* count := db_.sortedSetCard (name +:+ uid) in
    ret (uid, default 0 (parseInt (toString (VNum count))))).

Definition persist (cs : list (string * Z)) (fieldName : string) : M unit :=
  eachSeries cs (λ c, db_.setObjectField ("user:" +:+ c.1) fieldName (VNum c.2)).

(** The three members of the [Promise.all] array are started together:
    the removal and the cardinality reads of both [updateCount] calls are
    all in flight before any of them is answered, and nothing orders a
    read after the removal.  Each read is answered either before the
    removal is applied or after it, as the store chooses ([overtakes]);
    the write of a body follows its own read.  The writes go to one field
    of one object each, so the order among them, and between them and the
    removal, does not show in the store; they are placed last. *)
Definition deleteUserFromFollowers (uid : string) : M unit :=
  let* followers := db_.getSortedSetRange ("followers:" +:+ uid) 0 (-1) in
  let* following := db_.getSortedSetRange ("following:" +:+ uid) 0 (-1) in
  let followingSets := map (λ uid, "following:" +:+ uid) followers in
  let followerSets := map (λ uid, "followers:" +:+ uid) following in
  let* first := db_.overtaking in
  let before name := filter (λ uid, first (name +:+ uid) = true) in
  let after name := filter (λ uid, first (name +:+ uid) = false) in
  let* followerEarly := counts (before "followers:" following) "followers:" in
  let* followingEarly := counts (before "following:" followers) "following:" in
  db_.sortedSetsRemove (followerSets ++ followingSets) uid >>
  let* followerLate := counts (after "followers:" following) "followers:" in
  let* followingLate := counts (after "following:" followers) "following:" in
  persist (followerEarly ++ followerLate) "followerCount" >>
  persist (followingEarly ++ followingLate) "followingCount".

Definition keys (uid : string) : list string :=
  [ "uid:" +:+ uid +:+ ":notifications:read";
    "uid:" +:+ uid +:+ ":notifications:unread";
    "uid:" +:+ uid +:+ ":bookmarks";
    "uid:" +:+ uid +:+ ":tids_read";
    "uid:" +:+ uid +:+ ":tids_unread";
    "uid:" +:+ uid +:+ ":blocked_uids";
    "user:" +:+ uid +:+ ":settings";
    "user:" +:+ uid +:+ ":usernames";
    "user:" +:+ uid +:+ ":emails";
    "uid:" +:+ uid +:+ ":topics"; "uid:" +:+ uid +:+ ":posts";
    "uid:" +:+ uid +:+ ":chats"; "uid:" +:+ uid +:+ ":chats:unread";
    "uid:" +:+ uid +:+ ":chat:rooms";
    "uid:" +:+ uid +:+ ":chat:rooms:unread";
    "uid:" +:+ uid +:+ ":chat:rooms:read";
    "uid:" +:+ uid +:+ ":upvote"; "uid:" +:+ uid +:+ ":downvote";
    "uid:" +:+ uid +:+ ":flag:pids";
    "uid:" +:+ uid +:+ ":sessions"; "uid:" +:+ uid +:+ ":sessionUUID:sessionId";
    "invitation:uid:" +:+ uid ].

(** The array [bulkRemove] of [User.deleteAccount]: the literal, then the
    two conditional pushes. *)
Definition bulkRemove (uid : string) (userData : gmap string value)
  : exn + list (string * value) :=
  let username := Db.prop userData "username" in
  let email := Db.prop userData "email" in
  let fullname := Db.prop userData "fullname" in
  match toLowerCase_of username with
  | inl e => inl e
  | inr username_lc =>
      let literal :=
        [ ("username:uid", username);
          ("username:sorted", VStr (username_lc +:+ ":" +:+ uid));
          ("userslug:uid", Db.prop userData "userslug");
          ("fullname:uid", fullname) ] in
      let with_email :=
        if truthy email then
          match toLowerCase_of email with
          | inl e => inl e
          | inr email_lc =>
              inr (literal ++ [ ("email:uid", VStr email_lc);
                                ("email:sorted", VStr (email_lc +:+ ":" +:+ uid)) ])
          end
        else inr literal in
      match with_email with
      | inl e => inl e
      | inr l =>
          if truthy fullname then
            match toLowerCase_of fullname with
            | inl e => inl e
            | inr fullname_lc =>
                inr (l ++ [ ("fullname:sorted", VStr (fullname_lc +:+ ":" +:+ uid)) ])
            end
          else inr l
      end
  end.

Definition deleteAccount (uid : string) : M (gmap string value) :=
  let* entry := Guard.read_ uid in
  if Guard.marks user_deleteAccount entry then throw AlreadyDeleting else
  Guard.assign uid user_deleteAccount >>
  removeFromSortedSets uid >>
  let* record := db_.getObject ("user:" +:+ uid) in
  match record with
  | None => Guard.remove uid >> throw UserNotFound
  | Some userData =>
      if negb (truthy (Db.prop userData "username")) then
        Guard.remove uid >> throw UserNotFound
      else
        call (plugins_hooks_fire "static:user.delete" uid userData) >>
        deleteVotes uid >>
        deleteChats uid >>
        call (User_auth_revokeAllSessions uid) >>
        let* bulk := lift (bulkRemove uid userData) in
        db_.sortedSetRemoveBulk bulk >>
        db_.decrObjectField "global" "userCount" >>
        db_.deleteAll (keys uid) >>
        db_.setRemove "invitation:uids" uid >>
        deleteUserIps uid >>
        deleteUserFromFollowers uid >>
        deleteUserFromFollowedTopics uid >>
        deleteUserFromIgnoredTopics uid >>
        deleteUserFromFollowedTags uid >>
        deleteImages uid >>
        call (groups_leaveAllGroups uid) >>
        call (flags_resolveFlag "user" uid uid) >>
        call (User_reset_cleanByUid uid) >>
        call (User_email_expireValidation uid) >>
        db_.deleteAll
          [ "followers:" +:+ uid; "following:" +:+ uid; "user:" +:+ uid;
            "uid:" +:+ uid +:+ ":followed_tags";
            "uid:" +:+ uid +:+ ":followed_tids";
            "uid:" +:+ uid +:+ ":ignored_tids" ] >>
        Guard.remove uid >>
        ret userData
  end.

(** [User.delete] *)
Definition delete_ (fuel : nat) (callerUid uid : string)
  : M (gmap string value) :=
  deleteContent fuel callerUid uid >>
  deleteAccount uid.

End User.

(** ** Running the module on concrete worlds *)

Definition empty_store : Store := mkStore ∅ ∅ ∅ in_order.
Definition world0 : World := mkWorld ∅ empty_store [].

(** Collaborators that do nothing and never fail. *)
Definition quiet : Call → Store → exn + Store := λ _ s, inr s.

(** A post collaborator whose [purge] fails. *)
Definition purge_fails : Call → Store → exn + Store :=
  λ c s, match c with
         | posts_purge _ _ => inl (Error "[[error:no-privileges]]")
         | _ => inr s
         end.

(** A file system on which [rimraf] fails. *)
Definition rimraf_fails : Call → Store → exn + Store :=
  λ c s, match c with
         | rimraf _ => inl (Error "EACCES: permission denied")
         | _ => inr s
         end.

(** User 42, "alice", with one post. *)
Definition alice : gmap string value :=
  <["username" := VStr "alice"]> (<["userslug" := VStr "alice"]> ∅).

Definition store_alice : Store :=
  mkStore (<["uid:42:posts" := ["p1"]]> ∅) (<["user:42" := alice]> ∅) ∅ in_order.

Definition world_alice : World := mkWorld ∅ store_alice [].

(** The same world while [User.deleteContent] is running for uid 42. *)
Definition world_content_phase : World :=
  mkWorld (<["42" := user_delete]> ∅) store_alice [].

(** ** Predicates used in the statements *)

(** [emits P m]: whatever the world, [m] leaves [deletesInProgress] alone
    and appends to the log only events that satisfy [P]. *)
Definition emits {A} (P : Event → Prop) (m : M A) : Prop :=
  ∀ w, deletesInProgress (m w).2 = deletesInProgress w ∧
       ∃ l, log (m w).2 = log w ++ l ∧ Forall P l.

(** [raises E m]: every error [m] throws satisfies [E]. *)
Definition raises {A} (E : exn → Prop) (m : M A) : Prop :=
  ∀ w e w', m w = (Throw e, w') → E e.

(** The errors a collaborator can throw. *)
Definition external (handle : Call → Store → exn + Store) (e : exn) : Prop :=
  ∃ c s, handle c s = inl e.

(** The store operations and collaborator calls of the five steps of
    [User.deleteContent]. *)
Definition images_event (e : Event) : Prop :=
  match e with
  | Ext (exec _) | Ext (rimraf _) => True
  | _ => False
  end.

Definition posts_event (uid : string) (e : Event) : Prop :=
  match e with
  | Db (db_getSortedSetRange keys _ _) => keys = ["uid:" +:+ uid +:+ ":posts"]
  | Ext (posts_purge _ _) => True
  | _ => False
  end.

Definition topics_event (uid : string) (e : Event) : Prop :=
  match e with
  | Db (db_getSortedSetRange keys _ _) => keys = ["uid:" +:+ uid +:+ ":topics"]
  | Ext (topics_purge _ _) => True
  | _ => False
  end.

Definition uploads_event (e : Event) : Prop :=
  match e with
  | Db (db_getSortedSetMembers _) | Ext (User_deleteUpload _ _ _) => True
  | _ => False
  end.

Definition queued_event (e : Event) : Prop :=
  match e with
  | Db (db_getSortedSetRange keys _ _) => keys = ["post:queue"]
  | Db (db_getObjects _) | Ext (posts_removeFromQueue _) => True
  | _ => False
  end.

(** [ran steps w r w']: the steps were run in list order, each one started
    in the world its predecessor left when it had settled; the first step
    that does not succeed ends the run with its outcome, and no later step
    is started. *)
Inductive ran : list (M unit) → World → outcome unit → World → Prop :=
  | ran_done w : ran [] w (Ok tt) w
  | ran_next m ms w w1 r w2 :
      m w = (Ok tt, w1) → ran ms w1 r w2 → ran (m :: ms) w r w2
  | ran_stop m ms w r w1 :
      m w = (r, w1) → r ≠ Ok tt → ran (m :: ms) w r w1.

Definition any_event : Event → Prop := λ _, True.

(** [releases uid m]: [m] removes the entry of [uid] from
    [deletesInProgress] when it succeeds, and leaves the object as it is
    when it does not. *)
Definition releases {A} (uid : string) (m : M A) : Prop :=
  ∀ w, deletesInProgress (m w).2 =
       match (m w).1 with
       | Ok _ => delete uid (deletesInProgress w)
       | _ => deletesInProgress w
       end.

(** The errors [User.deleteAccount] can end with: its own two, a
    [TypeError] of the JavaScript run time, or whatever a collaborator
    throws. *)
Definition deleteAccount_error (handle : Call → Store → exn + Store) (e : exn)
  : Prop :=
  e = AlreadyDeleting ∨ e = UserNotFound ∨ (∃ m, e = TypeError m) ∨
  external handle e.

(** The test [!userData || !userData.username] of [User.deleteAccount],
    negated. *)
Definition has_user (s : Store) (uid : string) : bool :=
  match Db.getObject s ("user:" +:+ uid) with
  | Some userData => truthy (Db.prop userData "username")
  | None => false
  end.

(** The store after [removeFromSortedSets(uid)]. *)
Definition unlisted (uid : string) (s : Store) : Store :=
  foldr (λ k, Db.zrem k uid) s removeFromSortedSets_keys.

(** [extends m]: [m] only appends to the log. *)
Definition extends {A} (m : M A) : Prop :=
  ∀ w, ∃ l, log (m w).2 = log w ++ l.

(** A uid is a positive integer when it is the decimal numeral of one. *)
Definition positive_integer (uid : string) : Prop :=
  ∃ n : Z, 0 < n ∧ uid = pretty n.

(** The two patterns [deleteImages] hands to [rimraf]. *)
Definition cover_path (upload_path uid : string) : string :=
  path_join (path_join upload_path "profile") (uid +:+ "-profilecover*").
Definition avatar_path (upload_path uid : string) : string :=
  path_join (path_join upload_path "profile") (uid +:+ "-profileavatar*").

(** The lower-cased text of a field that has the method. *)
Definition lowered (v : value) : string :=
  match toLowerCase_of v with inr s => s | inl _ => EmptyString end.

(** The entries of [bulkRemove] as the code builds them: the four of the
    array literal, the two pushed for an email, the one pushed for a full
    name. *)
Definition bulkRemove_literal (uid : string) (userData : gmap string value)
  : list (string * value) :=
  [ ("username:uid", Db.prop userData "username");
    ("username:sorted",
     VStr (lowered (Db.prop userData "username") +:+ ":" +:+ uid));
    ("userslug:uid", Db.prop userData "userslug");
    ("fullname:uid", Db.prop userData "fullname") ].

Definition bulkRemove_email (uid : string) (userData : gmap string value)
  : list (string * value) :=
  [ ("email:uid", VStr (lowered (Db.prop userData "email")));
    ("email:sorted",
     VStr (lowered (Db.prop userData "email") +:+ ":" +:+ uid)) ].

Definition bulkRemove_fullname (uid : string) (userData : gmap string value)
  : list (string * value) :=
  [ ("fullname:sorted",
     VStr (lowered (Db.prop userData "fullname") +:+ ":" +:+ uid)) ].

(** The ids [deleteQueued] is to remove: the [id] field of the objects of
    the queue, in queue order, whose [uid] field matches the uid. *)
Definition queue_objects (s : Store) (ids : list string)
  : list (gmap string value) :=
  omap (λ id, Db.getObject s ("post:queue:" +:+ id)) ids.

Definition queued_of (uid : string) (s : Store) (ids : list string)
  : list value :=
  map (λ d, Db.prop d "id")
      (filter (λ d, matches uid d = true) (queue_objects s ids)).

(** The reads of the scan of the queue. *)
Definition queue_read (e : Event) : Prop :=
  match e with
  | Db (db_getSortedSetRange keys _ _) => keys = ["post:queue"]
  | Db (db_getObjects _) => True
  | _ => False
  end.

(** A queue of 1200 entries, numbered from 1; entries 250, 500 and 501
    belong to uid 42, all others to uid 7. *)
Definition queue_ids : list string :=
  map (λ n, pretty (Z.of_nat n)) (seq 1 1200).

Definition queue_entry (id : string) : gmap string value :=
  <["id" := VStr id]>
    (<["uid" := VStr (if bool_decide (id ∈ ["250"; "500"; "501"])
                      then "42" else "7")]> ∅).

Definition queue_store : Store :=
  mkStore (<["post:queue" := queue_ids]> ∅)
          (list_to_map (map (λ id, ("post:queue:" +:+ id, queue_entry id))
                            queue_ids))
          ∅ in_order.

Definition queue_world : World := mkWorld ∅ queue_store [].

(** A field of the record of a user, as a property read sees it. *)
Definition user_field (s : Store) (uid field : string) : value :=
  Db.prop (default ∅ (hashes s !! ("user:" +:+ uid))) field.

(** User 7, "bob", follows user 42 and is not followed by anyone; his
    counters have drifted. *)
Definition bob : gmap string value :=
  <["username" := VStr "bob"]>
    (<["followerCount" := VNum 5]> (<["followingCount" := VNum 9]> ∅)).



(** Users 42 and 7 follow each other. *)
Definition store_mutual : Store :=
  mkStore (<["followers:42" := ["7"]]> (<["following:42" := ["7"]]>
          (<["followers:7" := ["42"]]> (<["following:7" := ["42"]]> ∅))))
          (<["user:42" := alice]> (<["user:7" := bob]> ∅))
          ∅ in_order.

Definition world_mutual : World := mkWorld ∅ store_mutual [].

(** ** Predicates used in the further properties *)

(** [preserves R m]: the store [m] leaves is related by [R] to the store it
    found. *)
Definition preserves {A} (R : Store → Store → Prop) (m : M A) : Prop :=
  ∀ w, R (db w) (db (m w).2).

(** The collaborators keep [R]. *)
Definition respects (R : Store → Store → Prop)
    (handle : Call → Store → exn + Store) : Prop :=
  ∀ c s s', handle c s = inr s' → R s s'.



(** The keys of the last [db.deleteAll] of [User.deleteAccount]. *)
Definition deleteAccount_last_keys (uid : string) : list string :=
  [ "followers:" +:+ uid; "following:" +:+ uid; "user:" +:+ uid;
    "uid:" +:+ uid +:+ ":followed_tags";
    "uid:" +:+ uid +:+ ":followed_tids";
    "uid:" +:+ uid +:+ ":ignored_tids" ].

(** The global user counter, as a property read sees it. *)
Definition userCount (s : Store) : value :=
  Db.prop (default ∅ (hashes s !! "global")) "userCount".

(** The object ["global"] is the same in both stores. *)
Definition same_global (s s' : Store) : Prop :=
  hashes s' !! "global" = hashes s !! "global".

(** A queue whose index lists id 9, with no object stored for it. *)
Definition orphan_store : Store :=
  mkStore (<["post:queue" := ["9"]]> ∅) ∅ ∅ in_order.

Definition orphan_world : World := mkWorld ∅ orphan_store [].

(** User 42 has voted post p2 both up and down, and post p1 up; the
    downvote set also holds an empty id. *)
Definition store_votes : Store :=
  mkStore (<["uid:42:upvote" := ["p1"; "p2"]]>
             (<["uid:42:downvote" := ["p2"; ""]]> ∅))
          (<["user:42" := alice]> ∅) ∅ in_order.

Definition world_votes : World := mkWorld ∅ store_votes [].

(** User 42 has logged in from one address, follows topic 1 and the tag
    "news" and ignores topic 2; user 7 shares the address, the topic and
    the tag. *)
Definition store_traces : Store :=
  mkStore (<["uid:42:ip" := ["10.0.0.1"]]>
             (<["ip:10.0.0.1:uid" := ["42"; "7"]]>
                (<["uid:42:followed_tids" := ["1"]]>
                   (<["uid:42:ignored_tids" := ["2"]]>
                      (<["uid:42:followed_tags" := ["news"]]>
                         (<["tag:news:followers" := ["7"; "42"]]> ∅))))))
          (<["user:42" := alice]> ∅)
          (<["tid:1:followers" := ["42"; "7"]]>
             (<["tid:2:ignorers" := ["42"]]> ∅)) in_order.

Definition world_traces : World := mkWorld ∅ store_traces [].

(** [typeof v === 'string']: the values that have a [toLowerCase]
    method. *)
Definition is_string (v : value) : bool :=
  match v with VStr _ => true | _ => false end.

(** A record whose full name was stored as a number. *)
Definition carol : gmap string value :=
  <["username" := VStr "carol"]> (<["fullname" := VNum 7]> ∅).

(** A topic collaborator whose [purge] fails for topic 2. *)
Definition topic_purge_fails : Call → Store → exn + Store :=
  λ c s, match c with
         | topics_purge tid _ =>
             if bool_decide (tid = "2") then inl (Error "purge failed") else inr s
         | _ => inr s
         end.

(** User 42 has started topics 1, 2 and 3 and written posts p1 and p2. *)
Definition store_topics : Store :=
  mkStore (<["uid:42:topics" := ["1"; "2"; "3"]]>
             (<["uid:42:posts" := ["p1"; "p2"]]> ∅))
          (<["user:42" := alice]> ∅) ∅ in_order.

Definition world_topics : World := mkWorld ∅ store_topics [].

(** A queue whose index lists ids 1 and 9: entry 1 belongs to uid 42, and
    no object is stored for id 9. *)
Definition store_stale_queue : Store :=
  mkStore (<["post:queue" := ["1"; "9"]]> ∅)
          (<["post:queue:1" := <["id" := VStr "1"]> (<["uid" := VStr "42"]> ∅)]> ∅)
          ∅ in_order.

Definition world_stale_queue : World := mkWorld ∅ store_stale_queue [].

(** Users 42 and 7 follow each other, in a store that answers the
    cardinality reads before it applies the removal in flight. *)
Definition store_racing : Store :=
  mkStore (zsets store_mutual) (hashes store_mutual) (sets store_mutual)
          (λ _, true).

Definition world_racing : World := mkWorld ∅ store_racing [].

(** The string "-5" is listed in two of the global sorted sets, next to
    user 42, and has no record. *)
Definition store_listed : Store :=
  mkStore (<["users:joindate" := ["-5"; "42"]]>
             (<["users:online" := ["42"; "-5"]]> ∅))
          (<["user:42" := alice]> ∅) ∅ in_order.

Definition world_listed : World := mkWorld ∅ store_listed [].

(** * Properties *)

(** ** Sanity checks of the embedding *)

Example parseInt_42 : parseInt "42" = Some 42.
Proof. reflexivity. Qed.

Example parseInt_neg5 : parseInt "-5" = Some (-5).
Proof. reflexivity. Qed.

Example parseInt_abc : parseInt "abc" = None.
Proof. reflexivity. Qed.

Example parseInt_prefix : parseInt "  12px" = Some 12.
Proof. reflexivity. Qed.

Example toString_num : toString (VNum (-17)) = "-17".
Proof. reflexivity. Qed.

(** White space beyond ASCII: a no-break space (bytes 194 160) and an
    ideographic space (bytes 227 128 128) before the sign are skipped. *)
Example parseInt_no_break_space :
  parseInt (String (ascii_of_nat 194) (String (ascii_of_nat 160) "-5"))
  = Some (-5).
Proof. reflexivity. Qed.

Example parseInt_ideographic_space :
  parseInt (String (ascii_of_nat 227) (String (ascii_of_nat 128)
              (String (ascii_of_nat 128) "42"))) = Some 42.
Proof. reflexivity. Qed.

(** Above 2^53 two numerals can denote the same double. *)
Example strict_eq_doubles :
  strict_eq (parseInt "9007199254740993") (parseInt "9007199254740992") = true ∧
  strict_eq (parseInt "9007199254740994") (parseInt "9007199254740992") = false ∧
  strict_eq (parseInt "42") (parseInt "42.0") = true.
Proof. repeat split; vm_compute; reflexivity. Qed.

Example path_join_ex :
  path_join "/uploads" "profile" = "/uploads/profile" ∧
  path_join "/uploads/" "profile" = "/uploads/profile" ∧
  path_join "public//uploads/." "profile" = "public/uploads/profile" ∧
  path_join "/uploads/profile" "../42-profilecover*" = "/uploads/42-profilecover*" ∧
  path_join "" "profile" = "profile" ∧
  path_join ".." "profile" = "../profile" ∧
  path_join "/.." "profile" = "/profile" ∧
  path_join "a/../.." "b/" = "../b/".
Proof. repeat split; vm_compute; reflexivity. Qed.

Example toLowerCase_ex : toLowerCase "Alice@Example.COM" = "alice@example.com".
Proof. reflexivity. Qed.

Example deleteContent_fresh :
  deleteContent quiet "/uploads" 3 "1" "42" world0 =
  (Ok tt,
   mkWorld ∅ empty_store
     [ Ext (exec "find /uploads/profile -maxdepth 1 -type f | wc -l");
       Ext (rimraf "/uploads/profile/42-profilecover*");
       Ext (rimraf "/uploads/profile/42-profileavatar*");
       Db (db_getSortedSetRange ["uid:42:posts"] 0 499);
       Db (db_getSortedSetRange ["uid:42:topics"] 0 499);
       Db (db_getSortedSetMembers "uid:42:uploads");
       Ext (User_deleteUpload "1" "42" []);
       Db (db_getSortedSetRange ["post:queue"] 0 499) ]).
Proof. vm_compute. reflexivity. Qed.

(** ** The monad *)

Lemma bind_ok {A B} (m : M A) (k : A → M B) w a w' :
  m w = (Ok a, w') → bind m k w = k a w'.
Proof. intros H. unfold bind. by rewrite H. Qed.

Lemma bind_throw {A B} (m : M A) (k : A → M B) w e w' :
  m w = (Throw e, w') → bind m k w = (Throw e, w').
Proof. intros H. unfold bind. by rewrite H. Qed.

Lemma bind_assoc {A B C} (m : M A) (f : A → M B) (g : B → M C) w :
  bind (bind m f) g w = bind m (λ x, bind (f x) g) w.
Proof. unfold bind. by destruct (m w) as [[a|e|] w1]. Qed.

Lemma bind_ok_inv {A B} (m : M A) (k : A → M B) w b w' :
  bind m k w = (Ok b, w') →
  ∃ a w1, m w = (Ok a, w1) ∧ k a w1 = (Ok b, w').
Proof.
  unfold bind. destruct (m w) as [[a|e|] w1]; intros H; try discriminate.
  by exists a, w1.
Qed.

Ltac ok_inv H :=
  let a := fresh "a" in let w := fresh "w" in let E := fresh "E" in
  apply bind_ok_inv in H as (a & w & E & H).

Lemma store_run {A} op (f : Store → A * Store) w :
  store op f w =
  (Ok (f (db w)).1,
   mkWorld (deletesInProgress w) (f (db w)).2 (log w ++ [Db op])).
Proof. unfold store, bind, emit. simpl. by destruct (f (db w)). Qed.

Lemma update_run op f w :
  update op f w =
  (Ok tt, mkWorld (deletesInProgress w) (f (db w)) (log w ++ [Db op])).
Proof. unfold update. by rewrite store_run. Qed.

Lemma query_run {A} op (f : Store → A) w :
  query op f w =
  (Ok (f (db w)), mkWorld (deletesInProgress w) (db w) (log w ++ [Db op])).
Proof. unfold query. by rewrite store_run. Qed.

Lemma call_run handle c w :
  call handle c w =
  match handle c (db w) with
  | inl e => (Throw e, mkWorld (deletesInProgress w) (db w) (log w ++ [Ext c]))
  | inr s => (Ok tt, mkWorld (deletesInProgress w) s (log w ++ [Ext c]))
  end.
Proof. unfold call, bind, emit. simpl. by destruct (handle c (db w)). Qed.

Lemma World_eq w g s l :
  deletesInProgress w = g → db w = s → log w = l → w = mkWorld g s l.
Proof. destruct w; simpl; congruence. Qed.

(** ** [parseInt] reads back the decimal numeral of an integer *)

Lemma is_nat_pretty_N_char d :
  (d < 10)%N → Ascii.is_nat (pretty_N_char d) = Some (N.to_nat d).
Proof.
  intros Hd.
  assert (d = 0 ∨ d = 1 ∨ d = 2 ∨ d = 3 ∨ d = 4 ∨ d = 5 ∨ d = 6 ∨ d = 7 ∨
          d = 8 ∨ d = 9)%N as Hc by lia.
  repeat destruct Hc as [->|Hc]; try reflexivity. by subst.
Qed.

Lemma digits_pretty_N_go x s :
  (0 < x)%N → digits (pretty_N_go x s) None = digits s (Some (Z.of_N x)).
Proof.
  revert s. induction (N.lt_wf_0 x) as [x _ IH]. intros s Hx.
  rewrite pretty_N_go_step by done.
  assert (Hd : (x `mod` 10 < 10)%N) by (apply N.mod_lt; lia).
  assert (Hx10 : Z.of_N x = 10 * Z.of_N (x `div` 10) + Z.of_N (x `mod` 10)).
  { rewrite (N.div_mod x 10) at 1 by lia. lia. }
  destruct (decide (x `div` 10 = 0)%N) as [E0|Hne].
  - rewrite E0, pretty_N_go_0. simpl.
    rewrite is_nat_pretty_N_char by done. simpl.
    f_equal. f_equal. rewrite Hx10, E0. lia.
  - rewrite IH; [|apply N.div_lt; lia|lia]. simpl.
    rewrite is_nat_pretty_N_char by done. simpl.
    f_equal. f_equal. rewrite Hx10. lia.
Qed.

Lemma pretty_N_go_head x s :
  (0 < x)%N →
  ∃ c rest, pretty_N_go x s = String c rest ∧ is_Some (Ascii.is_nat c).
Proof.
  revert s. induction (N.lt_wf_0 x) as [x _ IH]. intros s Hx.
  rewrite pretty_N_go_step by done.
  destruct (decide (x `div` 10 = 0)%N) as [E0|Hne].
  - rewrite E0, pretty_N_go_0. eexists _, _. split; [done|].
    rewrite is_nat_pretty_N_char; [done|]. apply N.mod_lt; lia.
  - apply IH; [apply N.div_lt; lia|by apply N.neq_0_lt_0].
Qed.

Lemma parseInt_digit_head c rest :
  is_Some (Ascii.is_nat c) →
  parseInt (String c rest) = digits (String c rest) None.
Proof.
  destruct c as [[] [] [] [] [] [] [] []]; intros [d Hd];
    try discriminate Hd; reflexivity.
Qed.

Lemma parseInt_pretty_pos p : parseInt (pretty (Z.pos p)) = Some (Z.pos p).
Proof.
  unfold pretty, pretty_Z, pretty, pretty_positive, pretty, pretty_N.
  rewrite decide_False by done.
  destruct (pretty_N_go_head (N.pos p) "") as (c & rest & E & Hc); [lia|].
  rewrite E, parseInt_digit_head by done. rewrite <- E.
  by rewrite digits_pretty_N_go by lia.
Qed.

Lemma parseInt_pretty (z : Z) : parseInt (pretty z) = Some z.
Proof.
  destruct z as [|p|p]; [done|apply parseInt_pretty_pos|].
  unfold pretty, pretty_Z, pretty, pretty_positive, pretty, pretty_N.
  rewrite decide_False by done.
  change (parseInt ("-" +:+ ?s)) with (Z.opp <$> digits s None).
  by rewrite digits_pretty_N_go by lia.
Qed.

Lemma positive_integer_parseInt uid :
  positive_integer uid → ∃ n, 0 < n ∧ parseInt uid = Some n.
Proof. intros (n & Hn & ->). exists n. by rewrite parseInt_pretty. Qed.

(** Integers up to 2^53 in absolute value are their own doubles. *)
Lemma to_double_safe n : Z.abs n ≤ 2 ^ 53 → to_double n = n.
Proof.
  change (2 ^ 53) with 9007199254740992. intros H.
  destruct (decide (Z.abs n = 9007199254740992)) as [E|E].
  - assert (n = 9007199254740992 ∨ n = -9007199254740992) as [-> | ->] by lia;
      vm_compute; reflexivity.
  - assert (Hl : Z.log2 (Z.abs n) < 53).
    { destruct (decide (Z.abs n = 0)) as [->|Hz]; [done|].
      apply Z.log2_lt_pow2; [lia|].
      change (2 ^ 53) with 9007199254740992. lia. }
    unfold to_double. cbv zeta.
    by rewrite (proj2 (Z.leb_le _ _)) by lia.
Qed.

(** A numeral matches the entries whose [uid] field is a numeral of the
    same double. *)
Lemma matches_numeral (n m : Z) (d : gmap string value) :
  toString (Db.prop d "uid") = pretty m →
  matches (pretty n) d = bool_decide (to_double m = to_double n).
Proof.
  intros H. unfold matches. rewrite H, !parseInt_pretty. cbn [strict_eq].
  case_bool_decide; [by apply Z.eqb_eq | by apply Z.eqb_neq].
Qed.

(** A safe-integer uid matches the entries whose [uid] field is that
    integer, stored as a number or as its numeral. *)
Lemma matches_integer (n m : Z) (d : gmap string value) :
  Z.abs n ≤ 2 ^ 53 → Z.abs m ≤ 2 ^ 53 →
  Db.prop d "uid" = VNum m ∨ Db.prop d "uid" = VStr (pretty m) →
  matches (pretty n) d = bool_decide (m = n).
Proof.
  intros Hn Hm H.
  rewrite (matches_numeral n m) by (by destruct H as [->| ->]).
  by rewrite !to_double_safe.
Qed.

(** ** The store *)

Lemma range_chunk (l : list string) (n : nat) (b : Z) :
  0 < b →
  Db.range l (Z.of_nat n) (Z.of_nat n + b - 1) = take (Z.to_nat b) (drop n l).
Proof.
  intros Hb. unfold Db.range, Db.index.
  rewrite !(proj2 (Z.ltb_ge _ 0)) by lia.
  rewrite Nat2Z.id. f_equal. lia.
Qed.

Lemma range_all (l : list string) : Db.range l 0 (-1) = l.
Proof.
  unfold Db.range, Db.index. simpl.
  apply take_ge. lia.
Qed.

Lemma without_not_elem v (l : list string) : v ∉ Db.without v l.
Proof. unfold Db.without. rewrite list_elem_of_filter. by intros [? _]. Qed.

Lemma without_idemp v (l : list string) :
  Db.without v (Db.without v l) = Db.without v l.
Proof.
  unfold Db.without. induction l as [|x l IH]; [done|].
  rewrite filter_cons. case_decide; [|done].
  rewrite filter_cons. case_decide; [|done]. by rewrite IH.
Qed.

Lemma members_zrem_fold v keys s k :
  Db.members (foldr (λ k, Db.zrem k v) s keys) k =
  if decide (k ∈ keys) then Db.without v (Db.members s k) else Db.members s k.
Proof.
  induction keys as [|k' keys IH].
  { by rewrite decide_False by apply not_elem_of_nil. }
  cbn [foldr]. unfold Db.members, Db.zrem at 1. cbn [zsets].
  destruct (decide (k' = k)) as [->|Hne].
  - rewrite lookup_alter_eq. rewrite decide_True by left.
    fold (Db.members (foldr (λ k0, Db.zrem k0 v) s keys) k) in *.
    unfold Db.members in IH.
    destruct (zsets (foldr (λ k0, Db.zrem k0 v) s keys) !! k) as [l|] eqn:El;
      simpl in *.
    + case_decide; rewrite IH; [apply without_idemp|done].
    + case_decide; rewrite <- IH; done.
  - rewrite lookup_alter_ne by done. unfold Db.members in IH. rewrite IH.
    case_decide as Hin.
    + by rewrite decide_True by (by right).
    + rewrite decide_False; [done|]. rewrite elem_of_cons.
      intros [?|?]; [by subst|done].
Qed.

Lemma hashes_zrem_fold {K} (f : K → string) (g : K → string) keys s :
  hashes (foldr (λ k, Db.zrem (f k) (g k)) s keys) = hashes s.
Proof. induction keys as [|k keys IH]; simpl; done. Qed.

Lemma hashes_unlisted uid s : hashes (unlisted uid s) = hashes s.
Proof. apply (hashes_zrem_fold id (λ _, uid)). Qed.

Lemma has_user_unlisted uid s : has_user (unlisted uid s) uid = has_user s uid.
Proof. unfold has_user, Db.getObject. by rewrite hashes_unlisted. Qed.




Lemma guard_delete_set uid p g : delete uid (Guard.set uid p g) = delete uid g.
Proof. unfold Guard.set. case_bool_decide; [done|]. apply delete_insert_eq. Qed.

(** ** What a computation appends to the log *)

Lemma emits_ret {A} P (a : A) : emits P (ret a).
Proof. intros w. split; [done|]. exists []. by rewrite app_nil_r. Qed.

Lemma emits_throw {A} P e : emits P (@throw A e).
Proof. intros w. split; [done|]. exists []. by rewrite app_nil_r. Qed.

Lemma emits_pending {A} P : emits P (@pending A).
Proof. intros w. split; [done|]. exists []. by rewrite app_nil_r. Qed.

Lemma emits_lift {A} P (r : exn + A) : emits P (lift r).
Proof. destruct r; [apply emits_throw | apply emits_ret]. Qed.

Lemma emits_bind {A B} P (m : M A) (k : A → M B) :
  emits P m → (∀ a, emits P (k a)) → emits P (bind m k).
Proof.
  intros Hm Hk w. destruct (Hm w) as [Hg (l & Hl & HP)].
  unfold bind. destruct (m w) as [[a|e|] w1]; simpl in *;
    try (split; [done|]; by exists l).
  destruct (Hk a w1) as [Hg' (l' & Hl' & HP')].
  split; [congruence|]. exists (l ++ l').
  rewrite Hl', Hl, app_assoc. split; [done|]. by apply Forall_app.
Qed.

Lemma emits_emit (P : Event → Prop) e : P e → emits P (emit e).
Proof. intros He w. split; [done|]. exists [e]. split; [done|]. by constructor. Qed.

Lemma emits_store {A} (P : Event → Prop) op (f : Store → A * Store) :
  P (Db op) → emits P (store op f).
Proof.
  intros He. apply emits_bind; [by apply emits_emit|].
  intros _ w. simpl. destruct (f (db w)) as [a s]. simpl.
  split; [done|]. exists []. by rewrite app_nil_r.
Qed.

Lemma emits_call (P : Event → Prop) handle c :
  P (Ext c) → emits P (call handle c).
Proof.
  intros He. apply emits_bind; [by apply emits_emit|].
  intros _ w. simpl. destruct (handle c (db w)); simpl;
    (split; [done|]; exists []; by rewrite app_nil_r).
Qed.

Lemma emits_guard_read P uid : emits P (Guard.read_ uid).
Proof. intros w. split; [done|]. exists []. by rewrite app_nil_r. Qed.

Lemma emits_overtaking P : emits P db_.overtaking.
Proof. intros w. split; [done|]. exists []. by rewrite app_nil_r. Qed.

Lemma emits_eachSeries {A} P (l : list A) (f : A → M unit) :
  (∀ x, x ∈ l → emits P (f x)) → emits P (eachSeries l f).
Proof.
  induction l as [|x l IH]; intros Hf; simpl; [apply emits_ret|].
  apply emits_bind; [apply Hf; by left|].
  intros _. apply IH. intros y Hy. apply Hf. by right.
Qed.

Lemma emits_mapSeries {A B} P (l : list A) (f : A → M B) :
  (∀ x, x ∈ l → emits P (f x)) → emits P (mapSeries l f).
Proof.
  induction l as [|x l IH]; intros Hf; simpl; [apply emits_ret|].
  apply emits_bind; [apply Hf; by left|]. intros y.
  apply emits_bind; [apply IH; intros z Hz; apply Hf; by right|].
  intros ys. apply emits_ret.
Qed.

Lemma emits_scan {S} P setKey (process : S → list string → M S) options :
  (∀ start stop, P (Db (db_getSortedSetRange [setKey] start stop))) →
  (∀ acc ids, emits P (process acc ids)) →
  ∀ fuel start acc, emits P (scan setKey process options fuel start acc).
Proof.
  intros Hr Hp. induction fuel as [|fuel IH]; intros start acc; simpl;
    [apply emits_pending|].
  apply emits_bind; [by apply emits_store|]. intros ids.
  destruct ids as [|id ids]; [apply emits_ret|].
  apply emits_bind; [apply Hp|]. intros acc'.
  case_match; [apply emits_ret | apply IH].
Qed.

Lemma emits_run {A} P (m : M A) w :
  emits P m →
  ∃ r w1 l, m w = (r, w1) ∧ deletesInProgress w1 = deletesInProgress w ∧
            log w1 = log w ++ l ∧ Forall P l.
Proof.
  intros Hm. destruct (Hm w) as [Hg (l & Hl & HP)].
  destruct (m w) as [r w1] eqn:E. by exists r, w1, l.
Qed.

(** ** Frame lemmas: the helpers never touch [deletesInProgress] *)

Create HintDb model discriminated.

#[global] Hint Unfold db_.sortedSetsRemove db_.sortedSetRemoveBulk
  db_.getSortedSetRange db_.getSortedSetRangeOf db_.getSortedSetMembers
  db_.sortedSetCard db_.getObject db_.getObjects db_.setObjectField
  db_.decrObjectField db_.setRemove db_.setsRemove db_.delete db_.deleteAll
  update query spawn processSortedSet : model.

Ltac emits_step :=
  lazymatch goal with
  | |- emits _ (bind _ _) => apply emits_bind; [|intros ?]
  | |- emits _ (ret _) => apply emits_ret
  | |- emits _ (throw _) => apply emits_throw
  | |- emits _ pending => apply emits_pending
  | |- emits _ (lift _) => apply emits_lift
  | |- emits _ (Guard.read_ _) => apply emits_guard_read
  | |- emits _ db_.overtaking => apply emits_overtaking
  | |- emits _ (store _ _) => apply emits_store; exact I
  | |- emits _ (call _ _) => apply emits_call; exact I
  | |- emits _ (emit _) => apply emits_emit; exact I
  | |- emits _ (eachSeries _ _) => apply emits_eachSeries; intros ? _
  | |- emits _ (mapSeries _ _) => apply emits_mapSeries; intros ? _
  | |- emits _ (scan _ _ _ _ _ _) =>
      apply emits_scan; [intros; exact I | intros ? ?]
  end.

Ltac solve_emits := autounfold with model; repeat emits_step.

Lemma deleteImages_frame handle upload_path uid :
  emits any_event (deleteImages handle upload_path uid).
Proof. unfold deleteImages. solve_emits. Qed.

Lemma deleteVotes_frame handle uid : emits any_event (deleteVotes handle uid).
Proof. unfold deleteVotes. solve_emits. Qed.

Lemma deleteChats_frame handle uid : emits any_event (deleteChats handle uid).
Proof. unfold deleteChats. solve_emits. Qed.

Lemma deleteUserIps_frame uid : emits any_event (deleteUserIps uid).
Proof. unfold deleteUserIps. solve_emits. Qed.

Lemma deleteUserFromFollowers_frame uid :
  emits any_event (deleteUserFromFollowers uid).
Proof. unfold deleteUserFromFollowers, counts, persist. solve_emits. Qed.

Lemma deleteUserFromFollowedTopics_frame uid :
  emits any_event (deleteUserFromFollowedTopics uid).
Proof. unfold deleteUserFromFollowedTopics. solve_emits. Qed.

Lemma deleteUserFromIgnoredTopics_frame uid :
  emits any_event (deleteUserFromIgnoredTopics uid).
Proof. unfold deleteUserFromIgnoredTopics. solve_emits. Qed.

Lemma deleteUserFromFollowedTags_frame uid :
  emits any_event (deleteUserFromFollowedTags uid).
Proof. unfold deleteUserFromFollowedTags. solve_emits. Qed.

Lemma deletePosts_frame handle fuel callerUid uid :
  emits any_event (deletePosts handle fuel callerUid uid).
Proof. unfold deletePosts. solve_emits. Qed.

Lemma deleteTopics_frame handle fuel callerUid uid :
  emits any_event (deleteTopics handle fuel callerUid uid).
Proof. unfold deleteTopics. solve_emits. Qed.

Lemma deleteUploads_frame handle callerUid uid :
  emits any_event (deleteUploads handle callerUid uid).
Proof. unfold deleteUploads. solve_emits. Qed.

Lemma deleteQueued_frame handle fuel uid :
  emits any_event (deleteQueued handle fuel uid).
Proof. unfold deleteQueued. solve_emits. Qed.

#[global] Hint Resolve deleteImages_frame deleteVotes_frame deleteChats_frame
  deleteUserIps_frame deleteUserFromFollowers_frame
  deleteUserFromFollowedTopics_frame deleteUserFromIgnoredTopics_frame
  deleteUserFromFollowedTags_frame deletePosts_frame deleteTopics_frame
  deleteUploads_frame deleteQueued_frame : model.

Lemma extends_bind {A B} P (m : M A) (k : A → M B) :
  emits P m → (∀ a, extends (k a)) → extends (bind m k).
Proof.
  intros Hm Hk w. destruct (Hm w) as [_ (l & Hl & _)]. unfold bind.
  destruct (m w) as [[a|e|] w1]; simpl in *; try by exists l.
  destruct (Hk a w1) as (l' & Hl'). exists (l ++ l').
  by rewrite Hl', Hl, app_assoc.
Qed.

Lemma extends_remove_ret {A} uid (a : A) : extends (Guard.remove uid >> ret a).
Proof. intros w. exists []. by rewrite app_nil_r. Qed.

Lemma releases_bind {A B} P uid (m : M A) (k : A → M B) :
  emits P m → (∀ a, releases uid (k a)) → releases uid (bind m k).
Proof.
  intros Hm Hk w. destruct (Hm w) as [Hg _]. unfold bind.
  destruct (m w) as [[a|e|] w1]; simpl in *; try done.
  rewrite (Hk a w1). by rewrite Hg.
Qed.

Lemma releases_remove uid : releases uid (Guard.remove uid).
Proof. by intros w. Qed.

Lemma releases_remove_ret {A} uid (a : A) :
  releases uid (Guard.remove uid >> ret a).
Proof. by intros w. Qed.

(** ** Where errors come from *)

Lemma raises_ret {A} E (a : A) : raises E (ret a).
Proof. by intros w e w'. Qed.

Lemma raises_pending {A} E : raises E (@pending A).
Proof. by intros w e w'. Qed.

Lemma raises_throw {A} (E : exn → Prop) e : E e → raises E (@throw A e).
Proof. intros He w e' w' [= <- _]. done. Qed.

Lemma raises_bind {A B} E (m : M A) (k : A → M B) :
  raises E m → (∀ a, raises E (k a)) → raises E (bind m k).
Proof.
  intros Hm Hk w e w'. unfold bind.
  destruct (m w) as [[a|e1|] w1] eqn:Em; intros H.
  - by eapply Hk.
  - injection H as <- _. by eapply Hm.
  - discriminate.
Qed.

Lemma raises_emit E e : raises E (emit e).
Proof. by intros w e' w'. Qed.

Lemma raises_store {A} E op (f : Store → A * Store) : raises E (store op f).
Proof.
  apply raises_bind; [apply raises_emit|]. intros _ w e w'.
  destruct (f (db w)); discriminate.
Qed.

Lemma raises_guard_read E uid : raises E (Guard.read_ uid).
Proof. by intros w e w'. Qed.

Lemma raises_overtaking E : raises E db_.overtaking.
Proof. by intros w e w'. Qed.

Lemma raises_guard_assign E uid p : raises E (Guard.assign uid p).
Proof. by intros w e w'. Qed.

Lemma raises_guard_remove E uid : raises E (Guard.remove uid).
Proof. by intros w e w'. Qed.

Lemma raises_call (E : exn → Prop) handle c :
  (∀ e, external handle e → E e) → raises E (call handle c).
Proof.
  intros HE. apply raises_bind; [apply raises_emit|]. intros _ w e w'.
  destruct (handle c (db w)) as [e1|s] eqn:Eh; [|discriminate].
  intros [= <- _]. apply HE. by exists c, (db w).
Qed.

Lemma raises_eachSeries {A} E (l : list A) (f : A → M unit) :
  (∀ x, raises E (f x)) → raises E (eachSeries l f).
Proof.
  intros Hf. induction l as [|x l IH]; simpl; [apply raises_ret|].
  apply raises_bind; [apply Hf | intros _; apply IH].
Qed.

Lemma raises_mapSeries {A B} E (l : list A) (f : A → M B) :
  (∀ x, raises E (f x)) → raises E (mapSeries l f).
Proof.
  intros Hf. induction l as [|x l IH]; simpl; [apply raises_ret|].
  apply raises_bind; [apply Hf|]. intros y.
  apply raises_bind; [apply IH|]. intros ys. apply raises_ret.
Qed.

Lemma bulkRemove_error uid userData e :
  bulkRemove uid userData = inl e → ∃ m, e = TypeError m.
Proof.
  unfold bulkRemove, toLowerCase_of. intros H.
  repeat case_match; simplify_eq; eauto.
Qed.

Section Raises.
Variable handle : Call → Store → exn + Store.
Variable E : exn → Prop.
Hypothesis E_external : ∀ e, external handle e → E e.

Ltac raises_step :=
  lazymatch goal with
  | |- raises _ (bind _ _) => apply raises_bind; [|intros ?]
  | |- raises _ (ret _) => apply raises_ret
  | |- raises _ (store _ _) => apply raises_store
  | |- raises _ db_.overtaking => apply raises_overtaking
  | |- raises _ (emit _) => apply raises_emit
  | |- raises _ (call _ _) => apply raises_call; exact E_external
  | |- raises _ (eachSeries _ _) => apply raises_eachSeries; intros ?
  | |- raises _ (mapSeries _ _) => apply raises_mapSeries; intros ?
  end.

Ltac solve_raises := autounfold with model; repeat raises_step.

Lemma deleteImages_raises upload_path uid :
  raises E (deleteImages handle upload_path uid).
Proof. unfold deleteImages. solve_raises. Qed.

Lemma deleteVotes_raises uid : raises E (deleteVotes handle uid).
Proof. unfold deleteVotes. solve_raises. Qed.

Lemma deleteChats_raises uid : raises E (deleteChats handle uid).
Proof. unfold deleteChats. solve_raises. Qed.

Lemma deleteUserIps_raises uid : raises E (deleteUserIps uid).
Proof. unfold deleteUserIps. solve_raises. Qed.

Lemma deleteUserFromFollowers_raises uid :
  raises E (deleteUserFromFollowers uid).
Proof. unfold deleteUserFromFollowers, counts, persist. solve_raises. Qed.

Lemma deleteUserFromFollowedTopics_raises uid :
  raises E (deleteUserFromFollowedTopics uid).
Proof. unfold deleteUserFromFollowedTopics. solve_raises. Qed.

Lemma deleteUserFromIgnoredTopics_raises uid :
  raises E (deleteUserFromIgnoredTopics uid).
Proof. unfold deleteUserFromIgnoredTopics. solve_raises. Qed.

Lemma deleteUserFromFollowedTags_raises uid :
  raises E (deleteUserFromFollowedTags uid).
Proof. unfold deleteUserFromFollowedTags. solve_raises. Qed.

End Raises.

Lemma deleteAccount_raises handle upload_path uid :
  raises (deleteAccount_error handle) (deleteAccount handle upload_path uid).
Proof.
  assert (Hext : ∀ e, external handle e → deleteAccount_error handle e)
    by (intros e He; unfold deleteAccount_error; tauto).
  unfold deleteAccount, removeFromSortedSets.
  apply raises_bind; [apply raises_guard_read|]. intros entry.
  case_match; [apply raises_throw; by left|].
  apply raises_bind; [apply raises_guard_assign|]. intros _.
  apply raises_bind; [apply raises_store|]. intros _.
  apply raises_bind; [apply raises_store|]. intros record.
  assert (Hno : raises (deleteAccount_error handle)
                  (Guard.remove uid >> @throw (gmap string value) UserNotFound)).
  { apply raises_bind; [apply raises_guard_remove|]. intros _.
    apply raises_throw. right. by left. }
  destruct record as [userData|]; [|exact Hno].
  case_match; [exact Hno|].
  apply raises_bind; [by apply raises_call|]. intros _.
  apply raises_bind; [by apply deleteVotes_raises|]. intros _.
  apply raises_bind; [by apply deleteChats_raises|]. intros _.
  apply raises_bind; [by apply raises_call|]. intros _.
  apply raises_bind.
  { intros w e w'. destruct (bulkRemove _ _) as [e1|l] eqn:Eb; [|discriminate].
    intros [= <- _]. right. right. left. by eapply bulkRemove_error. }
  intros bulk.
  do 4 (apply raises_bind; [apply raises_store|]; intros _).
  apply raises_bind; [by apply deleteUserIps_raises|]. intros _.
  apply raises_bind; [by apply deleteUserFromFollowers_raises|]. intros _.
  apply raises_bind; [by apply deleteUserFromFollowedTopics_raises|]. intros _.
  apply raises_bind; [by apply deleteUserFromIgnoredTopics_raises|]. intros _.
  apply raises_bind; [by apply deleteUserFromFollowedTags_raises|]. intros _.
  apply raises_bind; [by apply deleteImages_raises|]. intros _.
  do 4 (apply raises_bind; [by apply raises_call|]; intros _).
  apply raises_bind; [apply raises_store|]. intros _.
  apply raises_bind; [apply raises_guard_remove|]. intros _.
  apply raises_ret.
Qed.

(** ** [User.deleteContent]: validation, guard and the order of the steps *)

Lemma deleteContent_rejects handle upload_path fuel callerUid uid w :
  le0 (parseInt uid) = true →
  deleteContent handle upload_path fuel callerUid uid w = (Throw InvalidUser, w).
Proof. intros H. unfold deleteContent. by rewrite H. Qed.

Lemma deleteContent_held handle upload_path fuel callerUid uid w :
  le0 (parseInt uid) = false →
  is_Some (deletesInProgress w !! uid) →
  deleteContent handle upload_path fuel callerUid uid w = (Throw AlreadyDeleting, w).
Proof.
  intros Hv [p Hp]. unfold deleteContent. rewrite Hv.
  rewrite (bind_ok (Guard.read_ uid) _ w _ w eq_refl).
  unfold Guard.get. by rewrite Hp.
Qed.

Lemma deleteContent_guard handle upload_path fuel callerUid uid w :
  le0 (parseInt uid) = false →
  Guard.truthy (Guard.get (deletesInProgress w) uid) = false →
  deletesInProgress (deleteContent handle upload_path fuel callerUid uid w).2 =
  match (deleteContent handle upload_path fuel callerUid uid w).1 with
  | Ok _ => delete uid (deletesInProgress w)
  | _ => Guard.set uid user_delete (deletesInProgress w)
  end.
Proof.
  intros Hv Hg. unfold deleteContent. rewrite Hv.
  rewrite (bind_ok (Guard.read_ uid) _ w _ w eq_refl), Hg.
  rewrite (bind_ok (Guard.assign uid user_delete) _ w tt _ eq_refl).
  match goal with |- context [?t (mkWorld ?g ?s ?l)] =>
    assert (Hrel : releases uid t); [|rewrite (Hrel (mkWorld g s l))] end.
  { repeat (apply (releases_bind any_event);
            [first [by eauto with model | solve [solve_emits]] | intros ?]).
    apply releases_remove. }
  cbn [deletesInProgress]. rewrite guard_delete_set. by case_match.
Qed.

Lemma deleteImages_emits handle upload_path uid :
  emits images_event (deleteImages handle upload_path uid).
Proof.
  unfold deleteImages, spawn.
  apply emits_bind; [by apply emits_emit|]. intros _.
  apply emits_bind; [by apply emits_call|]. intros _.
  by apply emits_call.
Qed.

Lemma deletePosts_emits handle fuel callerUid uid :
  emits (posts_event uid) (deletePosts handle fuel callerUid uid).
Proof.
  unfold deletePosts, processSortedSet. apply emits_scan; [done|].
  intros _ ids. by apply emits_call.
Qed.

Lemma deleteTopics_emits handle fuel callerUid uid :
  emits (topics_event uid) (deleteTopics handle fuel callerUid uid).
Proof.
  unfold deleteTopics, processSortedSet. apply emits_scan; [done|].
  intros _ ids. apply emits_eachSeries. intros tid _. by apply emits_call.
Qed.

Lemma deleteUploads_emits handle callerUid uid :
  emits uploads_event (deleteUploads handle callerUid uid).
Proof.
  unfold deleteUploads. apply emits_bind; [by apply emits_store|].
  intros uploads. by apply emits_call.
Qed.

Lemma deleteQueued_emits handle fuel uid :
  emits queued_event (deleteQueued handle fuel uid).
Proof.
  unfold deleteQueued, processSortedSet. apply emits_bind.
  - apply emits_scan; [done|]. intros acc ids.
    apply emits_bind; [by apply emits_store|]. intros data.
    apply emits_bind; [apply emits_lift|]. intros q. apply emits_ret.
  - intros deleteIds. apply emits_eachSeries. intros id _. by apply emits_call.
Qed.

(** C9: for a uid that passes the validation and the guard check, the steps
    run in the order images, posts, topics, uploads, queued submissions,
    each started in the world its predecessor left; the first step that
    does not succeed ends the call with its outcome and nothing after it is
    started.  The log of the call is the concatenation, in that order, of
    the events of the steps. *)
Theorem deleteContent_steps_in_order handle upload_path fuel callerUid uid w :
  le0 (parseInt uid) = false →
  Guard.truthy (Guard.get (deletesInProgress w) uid) = false →
  ∃ r w1,
    ran [ deleteImages handle upload_path uid;
          deletePosts handle fuel callerUid uid;
          deleteTopics handle fuel callerUid uid;
          deleteUploads handle callerUid uid;
          deleteQueued handle fuel uid ]
        (mkWorld (Guard.set uid user_delete (deletesInProgress w)) (db w) (log w))
        r w1 ∧
    deleteContent handle upload_path fuel callerUid uid w =
      (r, match r with
          | Ok _ => mkWorld (delete uid (deletesInProgress w1)) (db w1) (log w1)
          | _ => w1
          end) ∧
    ∃ l1 l2 l3 l4 l5,
      log w1 = log w ++ l1 ++ l2 ++ l3 ++ l4 ++ l5 ∧
      Forall images_event l1 ∧ Forall (posts_event uid) l2 ∧
      Forall (topics_event uid) l3 ∧ Forall uploads_event l4 ∧
      Forall queued_event l5.
Proof.
  intros Hv Hg. unfold deleteContent. rewrite Hv.
  rewrite (bind_ok (Guard.read_ uid) _ w _ w eq_refl), Hg.
  rewrite (bind_ok (Guard.assign uid user_delete) _ w tt _ eq_refl).
  set (w0 := mkWorld _ _ _).
  destruct (emits_run _ _ w0 (deleteImages_emits handle upload_path uid))
    as (r1 & w1 & l1 & E1 & _ & L1 & P1).
  destruct (emits_run _ _ w1 (deletePosts_emits handle fuel callerUid uid))
    as (r2 & w2 & l2 & E2 & _ & L2 & P2).
  destruct (emits_run _ _ w2 (deleteTopics_emits handle fuel callerUid uid))
    as (r3 & w3 & l3 & E3 & _ & L3 & P3).
  destruct (emits_run _ _ w3 (deleteUploads_emits handle callerUid uid))
    as (r4 & w4 & l4 & E4 & _ & L4 & P4).
  destruct (emits_run _ _ w4 (deleteQueued_emits handle fuel uid))
    as (r5 & w5 & l5 & E5 & _ & L5 & P5).
  assert (L0 : log w0 = log w) by done.
  destruct r1 as [[]|e1|]; cycle 1.
  { exists (Throw e1), w1. split; [by apply ran_stop|].
    split; [by rewrite (bind_throw _ _ _ _ _ E1)|].
    exists l1, [], [], [], []. rewrite !app_nil_r. by rewrite L1. }
  { exists Pending, w1. split; [by apply ran_stop|].
    split; [unfold bind; by rewrite E1|].
    exists l1, [], [], [], []. rewrite !app_nil_r. by rewrite L1. }
  rewrite (bind_ok _ _ _ _ _ E1).
  destruct r2 as [[]|e2|]; cycle 1.
  { exists (Throw e2), w2. split; [eapply ran_next; [done|by apply ran_stop]|].
    split; [by rewrite (bind_throw _ _ _ _ _ E2)|].
    exists l1, l2, [], [], []. rewrite !app_nil_r, L2, L1, L0.
    by rewrite <- !app_assoc. }
  { exists Pending, w2. split; [eapply ran_next; [done|by apply ran_stop]|].
    split; [unfold bind; by rewrite E2|].
    exists l1, l2, [], [], []. rewrite !app_nil_r, L2, L1, L0.
    by rewrite <- !app_assoc. }
  rewrite (bind_ok _ _ _ _ _ E2).
  destruct r3 as [[]|e3|]; cycle 1.
  { exists (Throw e3), w3.
    split; [do 2 (eapply ran_next; [done|]); by apply ran_stop|].
    split; [by rewrite (bind_throw _ _ _ _ _ E3)|].
    exists l1, l2, l3, [], []. rewrite !app_nil_r, L3, L2, L1, L0.
    by rewrite <- !app_assoc. }
  { exists Pending, w3.
    split; [do 2 (eapply ran_next; [done|]); by apply ran_stop|].
    split; [unfold bind; by rewrite E3|].
    exists l1, l2, l3, [], []. rewrite !app_nil_r, L3, L2, L1, L0.
    by rewrite <- !app_assoc. }
  rewrite (bind_ok _ _ _ _ _ E3).
  destruct r4 as [[]|e4|]; cycle 1.
  { exists (Throw e4), w4.
    split; [do 3 (eapply ran_next; [done|]); by apply ran_stop|].
    split; [by rewrite (bind_throw _ _ _ _ _ E4)|].
    exists l1, l2, l3, l4, []. rewrite !app_nil_r, L4, L3, L2, L1, L0.
    by rewrite <- !app_assoc. }
  { exists Pending, w4.
    split; [do 3 (eapply ran_next; [done|]); by apply ran_stop|].
    split; [unfold bind; by rewrite E4|].
    exists l1, l2, l3, l4, []. rewrite !app_nil_r, L4, L3, L2, L1, L0.
    by rewrite <- !app_assoc. }
  rewrite (bind_ok _ _ _ _ _ E4).
  exists r5, w5. split.
  { destruct r5 as [[]|e5|].
    - do 5 (eapply ran_next; [done|]). apply ran_done.
    - do 4 (eapply ran_next; [done|]). by apply ran_stop.
    - do 4 (eapply ran_next; [done|]). by apply ran_stop. }
  split.
  { unfold bind. rewrite E5. by destruct r5 as [[]|e5|]. }
  exists l1, l2, l3, l4, l5. rewrite L5, L4, L3, L2, L1, L0.
  by rewrite <- !app_assoc.
Qed.

Lemma deleteContent_steps_in_order_witness :
  ∃ r w1,
    ran [ deleteImages quiet "/uploads" "42";
          deletePosts quiet 3 "1" "42";
          deleteTopics quiet 3 "1" "42";
          deleteUploads quiet "1" "42";
          deleteQueued quiet 3 "42" ]
        (mkWorld (Guard.set "42" user_delete (deletesInProgress world_alice))
                 (db world_alice) (log world_alice)) r w1 ∧
    deleteContent quiet "/uploads" 3 "1" "42" world_alice =
      (r, match r with
          | Ok _ => mkWorld (delete "42" (deletesInProgress w1)) (db w1) (log w1)
          | _ => w1
          end).
Proof.
  destruct (deleteContent_steps_in_order quiet "/uploads" 3 "1" "42" world_alice)
    as (r & w1 & Hran & E & _); [reflexivity | reflexivity |].
  exists r, w1. split; [exact Hran | exact E].
Defined.

(** C4, as stated, fails: the uid "abc" is not a positive integer, yet
    [User.deleteContent] does not reject it.  [parseInt] gives NaN, the test
    [NaN <= 0] is false, the guard entry is set and the store is read. *)
Lemma deleteContent_accepts_malformed_uid :
  ¬ positive_integer "abc" ∧
  deleteContent quiet "/uploads" 3 "1" "abc" world0 =
    (Ok tt,
     mkWorld ∅ empty_store
       [ Ext (exec "find /uploads/profile -maxdepth 1 -type f | wc -l");
         Ext (rimraf "/uploads/profile/abc-profilecover*");
         Ext (rimraf "/uploads/profile/abc-profileavatar*");
         Db (db_getSortedSetRange ["uid:abc:posts"] 0 499);
         Db (db_getSortedSetRange ["uid:abc:topics"] 0 499);
         Db (db_getSortedSetMembers "uid:abc:uploads");
         Ext (User_deleteUpload "1" "abc" []);
         Db (db_getSortedSetRange ["post:queue"] 0 499) ]).
Proof.
  split.
  - intros H. apply positive_integer_parseInt in H as (n & _ & H).
    discriminate H.
  - vm_compute. reflexivity.
Qed.

(** C4, amended: a uid whose leading decimal integer, as [parseInt] reads
    it (after any leading white space, ASCII or not, and an optional sign),
    is zero or negative makes [User.deleteContent] fail with InvalidUser in
    an unchanged world: no store operation, no guard entry. *)
Theorem deleteContent_invalid_uid handle upload_path fuel callerUid uid w n :
  parseInt uid = Some n → n ≤ 0 →
  deleteContent handle upload_path fuel callerUid uid w = (Throw InvalidUser, w).
Proof.
  intros Hp Hn. apply deleteContent_rejects. rewrite Hp. simpl.
  by apply Z.leb_le.
Qed.

Lemma deleteContent_invalid_uid_witness :
  deleteContent quiet "/uploads" 3 "1" "-5" world_alice
  = (Throw InvalidUser, world_alice) ∧
  deleteContent quiet "/uploads" 3 "1"
    (String (ascii_of_nat 194) (String (ascii_of_nat 160) "-5")) world_alice
  = (Throw InvalidUser, world_alice).
Proof.
  split.
  - apply (deleteContent_invalid_uid quiet "/uploads" 3 "1" "-5" world_alice
             (-5)); [reflexivity | lia].
  - apply (deleteContent_invalid_uid quiet "/uploads" 3 "1"
             (String (ascii_of_nat 194) (String (ascii_of_nat 160) "-5"))
             world_alice (-5)); [reflexivity | lia].
Defined.

(** ** [User.deleteAccount]: the guard check and the first two store calls *)

Lemma deleteAccount_held handle upload_path uid w :
  deletesInProgress w !! uid = Some user_deleteAccount →
  deleteAccount handle upload_path uid w = (Throw AlreadyDeleting, w).
Proof.
  intros H. unfold deleteAccount.
  rewrite (bind_ok (Guard.read_ uid) _ w _ w eq_refl).
  unfold Guard.get. by rewrite H.
Qed.

Lemma deleteAccount_run handle upload_path uid w :
  Guard.marks user_deleteAccount (Guard.get (deletesInProgress w) uid) = false →
  ∃ r w' l,
    deleteAccount handle upload_path uid w = (r, w') ∧
    log w' = log w ++ Db (db_sortedSetsRemove removeFromSortedSets_keys uid)
                   :: Db (db_getObject ("user:" +:+ uid)) :: l ∧
    (has_user (db w) uid = false →
       r = Throw UserNotFound ∧ l = [] ∧ db w' = unlisted uid (db w) ∧
       deletesInProgress w' = delete uid (deletesInProgress w)) ∧
    (has_user (db w) uid = true →
       deletesInProgress w' =
       match r with
       | Ok _ => delete uid (deletesInProgress w)
       | _ => Guard.set uid user_deleteAccount (deletesInProgress w)
       end).
Proof.
  intros Hm. unfold deleteAccount.
  rewrite (bind_ok (Guard.read_ uid) _ w _ w eq_refl), Hm.
  rewrite (bind_ok (Guard.assign uid user_deleteAccount) _ w tt _ eq_refl).
  unfold removeFromSortedSets, db_.sortedSetsRemove.
  rewrite (bind_ok (update _ _) _ _ tt _ (update_run _ _ _)).
  unfold db_.getObject at 1.
  rewrite (bind_ok (query _ _) _ _ _ _ (query_run _ _ _)).
  cbn [db deletesInProgress log]. fold (unlisted uid (db w)).
  rewrite <- (has_user_unlisted uid (db w)). unfold has_user.
  set (w2 := mkWorld _ _ _).
  assert (Hno : ∃ r w' l,
    (Guard.remove uid >> @throw (gmap string value) UserNotFound) w2 = (r, w') ∧
    log w' = log w ++ Db (db_sortedSetsRemove removeFromSortedSets_keys uid)
                   :: Db (db_getObject ("user:" +:+ uid)) :: l ∧
    r = Throw UserNotFound ∧ l = [] ∧ db w' = unlisted uid (db w) ∧
    deletesInProgress w' = delete uid (deletesInProgress w)).
  { eexists _, _, []. split; [reflexivity|]. simpl.
    rewrite <- app_assoc. repeat split; try done. apply guard_delete_set. }
  destruct (Db.getObject (unlisted uid (db w)) ("user:" +:+ uid))
    as [userData|] eqn:Erec.
  2:{ destruct Hno as (r & w' & l & E & L & ? & ? & ? & ?).
      exists r, w', l. split; [exact E|]. split; [exact L|].
      split; [by intros _|]. by intros [=]. }
  destruct (truthy (Db.prop userData "username")) eqn:Et; simpl.
  2:{ destruct Hno as (r & w' & l & E & L & ? & ? & ? & ?).
      exists r, w', l. split; [exact E|]. split; [exact L|].
      split; [by intros _|]. by intros [=]. }
  match goal with |- ∃ r w' l, ?tail w2 = _ ∧ _ => set (t := tail) end.
  assert (Hrel : releases uid t).
  { subst t.
    repeat (apply (releases_bind any_event);
            [first [by eauto with model | solve [solve_emits]] | intros ?]).
    apply releases_remove_ret. }
  assert (Hem : extends t).
  { subst t.
    repeat (apply (extends_bind any_event);
            [first [by eauto with model | solve [solve_emits]] | intros ?]).
    apply extends_remove_ret. }
  destruct (Hem w2) as (l & Hl). specialize (Hrel w2).
  destruct (t w2) as [r w'] eqn:Et2. simpl in *.
  exists r, w', l. split; [done|]. split.
  { rewrite Hl. subst w2. cbn [log]. by rewrite <- !app_assoc. }
  split; [by intros [=]|]. intros _. rewrite Hrel. subst w2.
  cbn [deletesInProgress]. rewrite guard_delete_set. by destruct r.
Qed.

Lemma deleteAccount_missing handle upload_path uid w :
  Guard.marks user_deleteAccount (Guard.get (deletesInProgress w) uid) = false →
  has_user (db w) uid = false →
  deleteAccount handle upload_path uid w =
    (Throw UserNotFound,
     mkWorld (delete uid (deletesInProgress w)) (unlisted uid (db w))
       (log w ++ [Db (db_sortedSetsRemove removeFromSortedSets_keys uid);
                  Db (db_getObject ("user:" +:+ uid))])).
Proof.
  intros Hm Hu.
  destruct (deleteAccount_run handle upload_path uid w Hm)
    as (r & w' & l & E & L & Hno & _).
  destruct (Hno Hu) as (-> & -> & Hdb & Hg).
  rewrite E. f_equal. by apply World_eq.
Qed.

(** C5: when the user record is absent or has no [username] field,
    [User.deleteAccount] (called with no account-phase marker in place)
    removes the guard entry of the uid and fails with UserNotFound; the
    only store operations are the removal from the global sorted sets and
    the read of the record: no hook, no vote or chat cleanup, no key
    deletion, no index removal. *)
Theorem deleteAccount_no_user handle upload_path uid w :
  Guard.marks user_deleteAccount (Guard.get (deletesInProgress w) uid) = false →
  (hashes (db w) !! ("user:" +:+ uid) = None ∨
   ∃ userData, hashes (db w) !! ("user:" +:+ uid) = Some userData ∧
               userData !! "username" = None) →
  deleteAccount handle upload_path uid w =
    (Throw UserNotFound,
     mkWorld (delete uid (deletesInProgress w)) (unlisted uid (db w))
       (log w ++ [Db (db_sortedSetsRemove removeFromSortedSets_keys uid);
                  Db (db_getObject ("user:" +:+ uid))])) ∧
  delete uid (deletesInProgress w) !! uid = None.
Proof.
  intros Hm Hrec. split; [|apply lookup_delete_eq].
  apply deleteAccount_missing; [done|].
  unfold has_user, Db.getObject.
  destruct Hrec as [->|(userData & -> & Hu)]; [done|].
  unfold Db.prop. by rewrite Hu.
Qed.

Lemma deleteAccount_no_user_witness :
  deleteAccount quiet "/uploads" "42" world0 =
    (Throw UserNotFound,
     mkWorld ∅ empty_store
       [Db (db_sortedSetsRemove removeFromSortedSets_keys "42");
        Db (db_getObject "user:42")]).
Proof.
  destruct (deleteAccount_no_user quiet "/uploads" "42" world0) as [H _];
    [reflexivity | left; reflexivity |].
  rewrite H. vm_compute. reflexivity.
Defined.

(** C10: [User.deleteAccount] does not validate the uid.  An InvalidUser
    error can only be one a collaborator throws; whatever the uid, once the
    guard check has passed the first two store operations are the removal
    of the uid from the eleven global sorted sets ([users:joindate],
    [users:postcount], [users:reputation], [users:banned],
    [users:banned:expire], [users:flags], [users:online] and the four
    digest sets) and then the read of the user record; for a uid without a
    record the call fails with UserNotFound after these two operations, in
    a store in which the uid is a member of none of those sets, every such
    set having lost the uid and nothing else. *)
Theorem deleteAccount_no_uid_validation handle upload_path uid w :
  ((∀ c s, handle c s ≠ inl InvalidUser) →
   (deleteAccount handle upload_path uid w).1 ≠ Throw InvalidUser) ∧
  (Guard.marks user_deleteAccount (Guard.get (deletesInProgress w) uid) = false →
   ∃ l,
     log (deleteAccount handle upload_path uid w).2 =
       log w ++
       Db (db_sortedSetsRemove
             [ "users:joindate"; "users:postcount"; "users:reputation";
               "users:banned"; "users:banned:expire"; "users:flags";
               "users:online"; "digest:day:uids"; "digest:week:uids";
               "digest:biweek:uids"; "digest:month:uids" ] uid)
       :: Db (db_getObject ("user:" +:+ uid)) :: l ∧
     (hashes (db w) !! ("user:" +:+ uid) = None →
      (deleteAccount handle upload_path uid w).1 = Throw UserNotFound ∧
      l = [] ∧
      ∀ k, k ∈ [ "users:joindate"; "users:postcount"; "users:reputation";
                 "users:banned"; "users:banned:expire"; "users:flags";
                 "users:online"; "digest:day:uids"; "digest:week:uids";
                 "digest:biweek:uids"; "digest:month:uids" ] →
           (uid ∉ Db.members (db (deleteAccount handle upload_path uid w).2) k) ∧
           Db.members (db (deleteAccount handle upload_path uid w).2) k
           = Db.without uid (Db.members (db w) k))).
Proof.
  split.
  - intros Hh E.
    destruct (deleteAccount handle upload_path uid w) as [r w'] eqn:Er.
    simpl in E. subst r.
    destruct (deleteAccount_raises handle upload_path uid w _ _ Er)
      as [?|[?|[[m ?]|(c & s & Hc)]]]; try discriminate.
    by apply (Hh c s).
  - intros Hm.
    destruct (deleteAccount_run handle upload_path uid w Hm)
      as (r & w' & l & E & L & Hno & _).
    exists l. rewrite E. split; [exact L|]. intros Hrec.
    destruct Hno as (-> & -> & Hdb & _).
    { unfold has_user, Db.getObject. by rewrite Hrec. }
    cbn [fst snd]. repeat split; try done.
    + rewrite Hdb. unfold unlisted.
      rewrite members_zrem_fold, decide_True by done. apply without_not_elem.
    + rewrite Hdb. unfold unlisted.
      by rewrite members_zrem_fold, decide_True by done.
Qed.

Lemma deleteAccount_no_uid_validation_witness :
  (deleteAccount quiet "/uploads" "-5" world_listed).1 ≠ Throw InvalidUser ∧
  (deleteAccount quiet "/uploads" "-5" world_listed).1 = Throw UserNotFound ∧
  "-5" ∈ Db.members (db world_listed) "users:joindate" ∧
  Db.members (db (deleteAccount quiet "/uploads" "-5" world_listed).2)
             "users:joindate" = ["42"].
Proof.
  destruct (deleteAccount_no_uid_validation quiet "/uploads" "-5" world_listed)
    as [H1 H2].
  split; [apply H1; intros c s; discriminate|].
  destruct H2 as (l & _ & H); [reflexivity|].
  destruct H as (H & _ & Hk); [reflexivity|].
  split; [exact H|]. split.
  - apply (bool_decide_unpack _). vm_compute. exact I.
  - destruct (Hk "users:joindate") as [_ Hm]; [by left|].
    etrans; [exact Hm|]. vm_compute. reflexivity.
Defined.

(** ** The guard across the two phases *)

(** C1, as stated, fails: with the content-phase marker of uid 42 in
    place, [User.deleteAccount] does not fail with AlreadyDeleting; it runs
    to completion. *)
Lemma deleteAccount_ignores_content_marker :
  deletesInProgress world_content_phase !! "42" = Some user_delete ∧
  (deleteAccount quiet "/uploads" "42" world_content_phase).1 = Ok alice.
Proof. split; [reflexivity|]. vm_compute. reflexivity. Qed.

(** C1, amended: an entry of either phase makes [User.deleteContent] (for a
    uid that passes the validation) fail with AlreadyDeleting;
    [User.deleteAccount] fails with AlreadyDeleting when the entry is the
    account-phase marker; with the content-phase marker in place it goes
    past the check, overwrites the marker and calls the store: when the
    call is over the content-phase marker is gone, the entry being removed
    when the call succeeds or finds no user, and being the account-phase
    marker when the call fails after it has found the user. *)
Theorem guard_contention handle upload_path fuel callerUid uid w :
  (is_Some (deletesInProgress w !! uid) → le0 (parseInt uid) = false →
   deleteContent handle upload_path fuel callerUid uid w
   = (Throw AlreadyDeleting, w)) ∧
  (deletesInProgress w !! uid = Some user_deleteAccount →
   deleteAccount handle upload_path uid w = (Throw AlreadyDeleting, w)) ∧
  (deletesInProgress w !! uid = Some user_delete → uid ≠ "__proto__" →
   (∃ l, log (deleteAccount handle upload_path uid w).2 =
         log w ++ Db (db_sortedSetsRemove removeFromSortedSets_keys uid)
               :: Db (db_getObject ("user:" +:+ uid)) :: l) ∧
   deletesInProgress (deleteAccount handle upload_path uid w).2 !! uid =
     match (deleteAccount handle upload_path uid w).1 with
     | Ok _ => None
     | _ => if has_user (db w) uid then Some user_deleteAccount else None
     end).
Proof.
  split; [|split].
  - intros Hs Hv. by apply deleteContent_held.
  - apply deleteAccount_held.
  - intros Hp Hne.
    destruct (deleteAccount_run handle upload_path uid w)
      as (r & w' & l & E & L & Hno & Hyes).
    { unfold Guard.get. by rewrite Hp. }
    rewrite E. cbn [fst snd]. split; [by exists l|].
    destruct (has_user (db w) uid).
    + rewrite Hyes by done.
      destruct r; [apply lookup_delete_eq| |];
        (unfold Guard.set; rewrite bool_decide_eq_false_2 by done;
         apply lookup_insert_eq).
    + destruct Hno as (-> & _ & _ & ->); [done|]. apply lookup_delete_eq.
Qed.

Lemma guard_contention_witness :
  deleteContent quiet "/uploads" 3 "1" "42" world_content_phase
  = (Throw AlreadyDeleting, world_content_phase) ∧
  (∃ l, log (deleteAccount rimraf_fails "/uploads" "42" world_content_phase).2 =
        log world_content_phase
        ++ Db (db_sortedSetsRemove removeFromSortedSets_keys "42")
        :: Db (db_getObject ("user:" +:+ "42")) :: l) ∧
  deletesInProgress (deleteAccount rimraf_fails "/uploads" "42"
                       world_content_phase).2 !! "42"
  = Some user_deleteAccount.
Proof.
  destruct (guard_contention quiet "/uploads" 3 "1" "42" world_content_phase)
    as (H1 & _ & _).
  destruct (guard_contention rimraf_fails "/uploads" 3 "1" "42"
              world_content_phase) as (_ & _ & H3).
  split; [apply H1; [by eexists | reflexivity]|].
  destruct H3 as (H3 & H4); [reflexivity|discriminate|].
  split; [exact H3|]. etrans; [exact H4|]. vm_compute. reflexivity.
Defined.

(** C2, as stated, fails: when [posts.purge] throws inside
    [User.deleteContent], the error reaches the caller and the guard entry
    of uid 42 is still in place. *)
Lemma deleteContent_leaves_guard_on_error :
  (deleteContent purge_fails "/uploads" 3 "1" "42" world_alice).1
  = Throw (Error "[[error:no-privileges]]") ∧
  deletesInProgress (deleteContent purge_fails "/uploads" 3 "1" "42" world_alice).2
    !! "42" = Some user_delete.
Proof. split; vm_compute; reflexivity. Qed.

(** C2, amended: the guard entry of the uid is removed when a phase runs to
    completion, and when [User.deleteAccount] fails with UserNotFound; when
    a phase ends in any other way after the entry was set, the entry that
    phase wrote is still in place. *)
Theorem guard_release handle upload_path fuel callerUid uid w :
  (le0 (parseInt uid) = false →
   Guard.truthy (Guard.get (deletesInProgress w) uid) = false →
   deletesInProgress (deleteContent handle upload_path fuel callerUid uid w).2 =
   match (deleteContent handle upload_path fuel callerUid uid w).1 with
   | Ok _ => delete uid (deletesInProgress w)
   | _ => Guard.set uid user_delete (deletesInProgress w)
   end) ∧
  (Guard.marks user_deleteAccount (Guard.get (deletesInProgress w) uid) = false →
   (has_user (db w) uid = false →
    (deleteAccount handle upload_path uid w).1 = Throw UserNotFound ∧
    deletesInProgress (deleteAccount handle upload_path uid w).2 =
      delete uid (deletesInProgress w)) ∧
   (has_user (db w) uid = true →
    deletesInProgress (deleteAccount handle upload_path uid w).2 =
    match (deleteAccount handle upload_path uid w).1 with
    | Ok _ => delete uid (deletesInProgress w)
    | _ => Guard.set uid user_deleteAccount (deletesInProgress w)
    end)).
Proof.
  split; [apply deleteContent_guard|]. intros Hm.
  destruct (deleteAccount_run handle upload_path uid w Hm)
    as (r & w' & l & E & L & Hno & Hyes).
  rewrite E. cbn [fst snd]. split.
  - intros Hu. by destruct (Hno Hu) as (-> & _ & _ & ->).
  - exact Hyes.
Qed.

Lemma guard_release_witness :
  deletesInProgress (deleteContent quiet "/uploads" 3 "1" "42" world_alice).2
    !! "42" = None ∧
  deletesInProgress (deleteAccount quiet "/uploads" "42" world_alice).2
    !! "42" = None ∧
  deletesInProgress (deleteAccount quiet "/uploads" "43" world_alice).2
    !! "43" = None.
Proof.
  destruct (guard_release quiet "/uploads" 3 "1" "42" world_alice)
    as [H1 H2].
  destruct (guard_release quiet "/uploads" 3 "1" "43" world_alice)
    as [_ H3].
  split; [|split].
  - rewrite H1 by reflexivity. vm_compute. reflexivity.
  - destruct H2 as [_ H2]; [reflexivity|]. rewrite H2 by reflexivity.
    vm_compute. reflexivity.
  - destruct H3 as [H3 _]; [reflexivity|]. destruct H3 as [_ H3];
      [reflexivity|]. rewrite H3. vm_compute. reflexivity.
Defined.

(** ** Profile media *)

Lemma deleteImages_fails handle upload_path uid :
  ((∀ s, ∃ e, handle (rimraf (cover_path upload_path uid)) s = inl e) ∨
   (∀ s, ∃ e, handle (rimraf (avatar_path upload_path uid)) s = inl e)) →
  ∀ w, ∃ e, (deleteImages handle upload_path uid w).1 = Throw e.
Proof.
  intros H w. unfold deleteImages, spawn.
  fold (cover_path upload_path uid). fold (avatar_path upload_path uid).
  rewrite (bind_ok (emit _) _ w tt _ eq_refl).
  unfold bind at 1. rewrite call_run. cbn [db].
  destruct (handle (rimraf (cover_path upload_path uid)) (db w))
    as [e|s] eqn:Ec; [by exists e|].
  destruct H as [H|H]; [destruct (H (db w)) as [e He]; congruence|].
  rewrite call_run. cbn [db]. destruct (H s) as [e ->]. by exists e.
Qed.

(** C3, as stated, fails: on a file system where [rimraf] fails,
    [User.deleteContent] ends with that error; the posts, topics, uploads
    and queue of the user have not been looked at. *)
Lemma deleteContent_aborts_on_media_error :
  deleteContent rimraf_fails "/uploads" 3 "1" "42" world_alice =
  (Throw (Error "EACCES: permission denied"),
   mkWorld (<["42" := user_delete]> ∅) store_alice
     [ Ext (exec "find /uploads/profile -maxdepth 1 -type f | wc -l");
       Ext (rimraf "/uploads/profile/42-profilecover*") ]).
Proof. vm_compute. reflexivity. Qed.

(** C3, amended: [deleteImages] does not catch the errors of its two
    [rimraf] calls (only the file-count command is started without being
    awaited).  When one of the two removals fails, [deleteImages] throws,
    [User.deleteContent] ends with an error after the events of the images
    step, and [User.deleteAccount] does not succeed. *)
Theorem deleteImages_errors_propagate handle upload_path uid :
  ((∀ s, ∃ e, handle (rimraf (cover_path upload_path uid)) s = inl e) ∨
   (∀ s, ∃ e, handle (rimraf (avatar_path upload_path uid)) s = inl e)) →
  (∀ w, ∃ e, (deleteImages handle upload_path uid w).1 = Throw e) ∧
  (∀ fuel callerUid w,
     le0 (parseInt uid) = false →
     Guard.truthy (Guard.get (deletesInProgress w) uid) = false →
     ∃ e w' l,
       deleteContent handle upload_path fuel callerUid uid w = (Throw e, w') ∧
       log w' = log w ++ l ∧ Forall images_event l) ∧
  (∀ w userData, (deleteAccount handle upload_path uid w).1 ≠ Ok userData).
Proof.
  intros H. pose proof (deleteImages_fails handle upload_path uid H) as Hi.
  split; [exact Hi|]. split.
  - intros fuel callerUid w Hv Hg. unfold deleteContent. rewrite Hv.
    rewrite (bind_ok (Guard.read_ uid) _ w _ w eq_refl), Hg.
    rewrite (bind_ok (Guard.assign uid user_delete) _ w tt _ eq_refl).
    set (w0 := mkWorld _ _ _).
    destruct (emits_run _ _ w0 (deleteImages_emits handle upload_path uid))
      as (r & w1 & l & E & _ & L & P).
    destruct (Hi w0) as [e He]. rewrite E in He. simpl in He. subst r.
    exists e, w1, l. by rewrite (bind_throw _ _ _ _ _ E).
  - intros w userData Hok.
    destruct (deleteAccount handle upload_path uid w) as [r w'] eqn:E.
    simpl in Hok. subst r. unfold deleteAccount in E.
    ok_inv E. case_match; [discriminate|].
    do 3 ok_inv E. case_match; [|ok_inv E; discriminate].
    case_match; [ok_inv E; discriminate|].
    do 14 ok_inv E. ok_inv E.
    match goal with
    | HI : deleteImages _ _ _ ?w = (Ok _, _) |- _ =>
        destruct (Hi w) as [e He]; rewrite HI in He; discriminate
    end.
Qed.

Lemma deleteImages_errors_propagate_witness :
  (∃ e, (deleteImages rimraf_fails "/uploads" "42" world_alice).1 = Throw e) ∧
  (∀ userData,
     (deleteAccount rimraf_fails "/uploads" "42" world_alice).1 ≠ Ok userData).
Proof.
  destruct (deleteImages_errors_propagate rimraf_fails "/uploads" "42")
    as (H1 & _ & H3).
  { left. intros s. eexists. reflexivity. }
  split; [apply H1 | apply H3].
Defined.

(** ** The uniqueness-index removal list *)

Lemma bulkRemove_spec uid userData l :
  bulkRemove uid userData = inr l →
  l = bulkRemove_literal uid userData
      ++ (if truthy (Db.prop userData "email")
          then bulkRemove_email uid userData else [])
      ++ (if truthy (Db.prop userData "fullname")
          then bulkRemove_fullname uid userData else []).
Proof.
  unfold bulkRemove, bulkRemove_literal, bulkRemove_email,
    bulkRemove_fullname, lowered.
  destruct (toLowerCase_of (Db.prop userData "username")) as [e|u];
    [discriminate|].
  destruct (truthy (Db.prop userData "email")).
  - destruct (toLowerCase_of (Db.prop userData "email")) as [e|m];
      [discriminate|].
    destruct (truthy (Db.prop userData "fullname")).
    + destruct (toLowerCase_of (Db.prop userData "fullname")) as [e|f];
        [discriminate|].
      by intros [= <-].
    + by intros [= <-].
  - destruct (truthy (Db.prop userData "fullname")).
    + destruct (toLowerCase_of (Db.prop userData "fullname")) as [e|f];
        [discriminate|].
      by intros [= <-].
    + by intros [= <-].
Qed.

Lemma deleteAccount_bulkRemove handle upload_path uid w userData w' :
  deleteAccount handle upload_path uid w = (Ok userData, w') →
  ∃ l, bulkRemove uid userData = inr l ∧
       Db (db_sortedSetRemoveBulk l) ∈ log w'.
Proof.
  intros E. unfold deleteAccount in E.
  ok_inv E. case_match; [discriminate E|].
  do 3 ok_inv E. case_match; [|ok_inv E; discriminate E].
  case_match; [ok_inv E; discriminate E|].
  do 4 ok_inv E.
  apply bind_ok_inv in E as (bulk & w8 & HL & E).
  apply bind_ok_inv in E as ([] & w9 & HB & E).
  match type of HL with lift (bulkRemove uid ?ud) _ = _ =>
    assert (ud = userData ∧ ∃ l', log w' = log w9 ++ l') as [-> (l' & Hl')]
  end.
  { match type of E with ?t _ = _ => assert (Hx : extends t) end.
    { clear - handle.
      repeat (apply (extends_bind any_event);
              [first [by eauto with model | solve [solve_emits]] | intros ?]).
      apply extends_remove_ret. }
    destruct (Hx w9) as (l' & Hl'). rewrite E in Hl'. cbn [snd] in Hl'.
    split; [|exists l'; exact Hl'].
    do 15 ok_inv E. injection E as -> _. reflexivity. }
  exists bulk. split.
  - unfold lift in HL.
    destruct (bulkRemove uid userData) as [e|l]; [discriminate HL|].
    injection HL as -> _. reflexivity.
  - unfold db_.sortedSetRemoveBulk in HB. rewrite update_run in HB.
    injection HB as <-. rewrite Hl'. cbn [log].
    rewrite !elem_of_app, list_elem_of_singleton. left. right. reflexivity.
Qed.

(** C8, as stated, fails: for a record without a full name the list still
    has the ["fullname:uid"] entry (with the value [undefined]). *)
Lemma bulkRemove_fullname_unconditional :
  alice !! "fullname" = None ∧
  bulkRemove "42" alice =
    inr [ ("username:uid", VStr "alice");
          ("username:sorted", VStr "alice:42");
          ("userslug:uid", VStr "alice");
          ("fullname:uid", VUndef) ].
Proof. split; vm_compute; reflexivity. Qed.

(** C8, amended: the list built in [User.deleteAccount] always holds the
    entries for username, username-sorted, userslug and fullname (the last
    with whatever the record has under [fullname]); the email and
    email-sorted entries follow when the record has a (truthy) email, the
    fullname-sorted entry follows when it has a (truthy) full name; a call
    that succeeds has handed exactly this list to
    [db.sortedSetRemoveBulk]. *)
Theorem bulkRemove_entries handle upload_path uid w userData w' :
  deleteAccount handle upload_path uid w = (Ok userData, w') →
  ∃ l,
    bulkRemove uid userData = inr l ∧
    Db (db_sortedSetRemoveBulk l) ∈ log w' ∧
    l = bulkRemove_literal uid userData
        ++ (if truthy (Db.prop userData "email")
            then bulkRemove_email uid userData else [])
        ++ (if truthy (Db.prop userData "fullname")
            then bulkRemove_fullname uid userData else []).
Proof.
  intros E.
  destruct (deleteAccount_bulkRemove _ _ _ _ _ _ E) as (l & Hb & Hl).
  exists l. split; [done|]. split; [done|]. by apply bulkRemove_spec.
Qed.

Lemma bulkRemove_entries_witness :
  Db (db_sortedSetRemoveBulk
        [ ("username:uid", VStr "alice");
          ("username:sorted", VStr "alice:42");
          ("userslug:uid", VStr "alice");
          ("fullname:uid", VUndef) ])
  ∈ log (deleteAccount quiet "/uploads" "42" world_alice).2.
Proof.
  destruct (bulkRemove_entries quiet "/uploads" "42" world_alice alice
              (deleteAccount quiet "/uploads" "42" world_alice).2)
    as (l & Hb & Hin & _).
  { vm_compute. reflexivity. }
  vm_compute in Hb. injection Hb as <-. exact Hin.
Defined.

(** ** The scan of the pending queue *)

Lemma queued_of_app uid s l1 l2 :
  queued_of uid s (l1 ++ l2) = queued_of uid s l1 ++ queued_of uid s l2.
Proof.
  unfold queued_of, queue_objects.
  by rewrite omap_app, filter_app, map_app.
Qed.

Lemma userQueuedIds_objects uid s ids :
  Forall (λ id, is_Some (Db.getObject s ("post:queue:" +:+ id))) ids →
  userQueuedIds uid (map (Db.getObject s) (map (λ id, "post:queue:" +:+ id) ids))
  = inr (queued_of uid s ids).
Proof.
  induction 1 as [|id ids [d Hd] _ IH]; [done|].
  cbn [map userQueuedIds]. rewrite Hd, IH.
  unfold queued_of, queue_objects. cbn [omap list_omap]. rewrite Hd.
  rewrite filter_cons. destruct (matches uid d); by case_decide.
Qed.

Lemma scan_unfold {S} setKey (process : S → list string → M S) options
    fuel start acc :
  scan setKey process options (Datatypes.S fuel) start acc =
  let size := default DEFAULT_BATCH_SIZE (batch options) in
  let* ids := db_.getSortedSetRange setKey start (start + size - 1) in
  match ids with
  | [] => ret acc
  | _ =>
      let* acc' := process acc ids in
      if Z.of_nat (length ids) <? size then ret acc'
      else scan setKey process options fuel
             (default (start + size) (alwaysStartAt options)) acc'
  end.
Proof. reflexivity. Qed.

Lemma scan_queue uid fuel : ∀ n acc w,
  Forall (λ id, is_Some (Db.getObject (db w) ("post:queue:" +:+ id)))
         (Db.members (db w) "post:queue") →
  (length (drop n (Db.members (db w) "post:queue")) < 500 * fuel)%nat →
  ∃ l,
    scan "post:queue"
      (λ deleteIds ids,
         let* data := db_.getObjects (map (λ id, "post:queue:" +:+ id) ids) in
         let* userQueued := lift (userQueuedIds uid data) in
         ret (deleteIds ++ userQueued))
      (mkOptions None (Some 500)) fuel (Z.of_nat n) acc w
    = (Ok (acc ++ queued_of uid (db w) (drop n (Db.members (db w) "post:queue"))),
       mkWorld (deletesInProgress w) (db w) (log w ++ l)) ∧
    Forall queue_read l.
Proof.
  induction fuel as [|fuel IH]; intros n acc w Hall Hlen; [lia|].
  rewrite scan_unfold. cbn [batch alwaysStartAt default from_option id].
  unfold db_.getSortedSetRange.
  rewrite (bind_ok (query _ _) _ _ _ _ (query_run _ _ _)).
  rewrite range_chunk by lia. change (Z.to_nat 500) with 500%nat.
  set (q := Db.members (db w) "post:queue") in *.
  destruct (take 500 (drop n q)) as [|id chunk] eqn:Echunk.
  { destruct (drop n q) as [|x rest] eqn:Ed; [|discriminate Echunk].
    eexists [_]. split.
    - unfold ret, queued_of, queue_objects. cbn. by rewrite app_nil_r.
    - by repeat constructor. }
  cbv beta iota. rewrite <- Echunk.
  assert (Hsub : Forall (λ id, is_Some (Db.getObject (db w) ("post:queue:" +:+ id)))
                   (take 500 (drop n q))).
  { apply Forall_take, Forall_drop, Hall. }
  unfold db_.getObjects at 1. rewrite !bind_assoc.
  rewrite (bind_ok (query _ _) _ _ _ _ (query_run _ _ _)). cbn [db].
  rewrite (userQueuedIds_objects uid (db w) _ Hsub). rewrite !bind_assoc.
  rewrite (bind_ok (lift (inr _)) _ _ _ _ eq_refl).
  rewrite (bind_ok (ret _) _ _ _ _ eq_refl).
  rewrite Echunk.
  destruct (Z.of_nat (length (id :: chunk)) <? 500) eqn:Elt.
  - apply Z.ltb_lt in Elt. rewrite <- Echunk in Elt |- *.
    rewrite take_ge in * by (rewrite length_take in Elt; lia).
    eexists [_; _]. split.
    + unfold ret. cbn [deletesInProgress db log]. by rewrite <- app_assoc.
    + by repeat constructor.
  - apply Z.ltb_ge in Elt. rewrite <- Echunk in Elt |- *.
    rewrite length_take in Elt.
    replace (Z.of_nat n + 500) with (Z.of_nat (n + 500)) by lia.
    match goal with |- context [scan _ _ _ fuel _ ?acc1 ?w1] =>
      destruct (IH (n + 500)%nat acc1 w1) as (l & El & Hl) end.
    { exact Hall. }
    { cbn [db]. fold q. rewrite length_drop in *. lia. }
    eexists (_ :: _ :: l). split.
    + rewrite El. cbn [deletesInProgress db log]. fold q.
      f_equal.
      * f_equal. rewrite <- app_assoc, <- queued_of_app.
        by rewrite <- drop_drop, take_drop.
      * f_equal. by rewrite <- !app_assoc.
    + by repeat constructor.
Qed.

Lemma eachSeries_removeFromQueue handle (ids : list value) :
  (∀ id s, ∃ s', handle (posts_removeFromQueue id) s = inr s') →
  ∀ w, ∃ s',
    eachSeries ids (λ id, call handle (posts_removeFromQueue id)) w =
    (Ok tt,
     mkWorld (deletesInProgress w) s'
       (log w ++ map (λ id, Ext (posts_removeFromQueue id)) ids)).
Proof.
  intros Hh. induction ids as [|id ids IH]; intros w.
  { exists (db w). cbn. rewrite app_nil_r. by destruct w. }
  cbn [eachSeries map]. unfold bind at 1. rewrite call_run.
  destruct (Hh id (db w)) as [s1 ->].
  destruct (IH (mkWorld (deletesInProgress w) s1
                  (log w ++ [Ext (posts_removeFromQueue id)]))) as [s' ->].
  exists s'. cbn [deletesInProgress log]. by rewrite <- app_assoc.
Qed.

Lemma userQueuedIds_null uid data :
  None ∈ data → ∃ m, userQueuedIds uid data = inl (TypeError m).
Proof.
  induction data as [|[d|] data IH]; intros Hin; cbn [userQueuedIds].
  - by apply elem_of_nil in Hin.
  - apply elem_of_cons in Hin as [Hin|Hin]; [discriminate Hin|].
    destruct (IH Hin) as [m ->]. by exists m.
  - by eexists.
Qed.

Lemma scan_queue_orphan uid fuel : ∀ n acc w,
  ¬ Forall (λ id, is_Some (Db.getObject (db w) ("post:queue:" +:+ id)))
           (drop n (Db.members (db w) "post:queue")) →
  (length (drop n (Db.members (db w) "post:queue")) < 500 * fuel)%nat →
  ∃ m l,
    scan "post:queue"
      (λ deleteIds ids,
         let* data := db_.getObjects (map (λ id, "post:queue:" +:+ id) ids) in
         let* userQueued := lift (userQueuedIds uid data) in
         ret (deleteIds ++ userQueued))
      (mkOptions None (Some 500)) fuel (Z.of_nat n) acc w
    = (Throw (TypeError m),
       mkWorld (deletesInProgress w) (db w) (log w ++ l)) ∧
    Forall queue_read l.
Proof.
  induction fuel as [|fuel IH]; intros n acc w Hbad Hlen; [lia|].
  rewrite scan_unfold. cbn [batch alwaysStartAt default from_option id].
  unfold db_.getSortedSetRange.
  rewrite (bind_ok (query _ _) _ _ _ _ (query_run _ _ _)).
  rewrite range_chunk by lia. change (Z.to_nat 500) with 500%nat.
  set (q := Db.members (db w) "post:queue") in *.
  destruct (take 500 (drop n q)) as [|id chunk] eqn:Echunk.
  { destruct (drop n q) as [|x rest] eqn:Ed; [|discriminate Echunk].
    exfalso. apply Hbad. constructor. }
  cbv beta iota. rewrite <- Echunk.
  unfold db_.getObjects at 1. rewrite !bind_assoc.
  rewrite (bind_ok (query _ _) _ _ _ _ (query_run _ _ _)). cbn [db].
  destruct (decide (Forall (λ id, is_Some (Db.getObject (db w)
                                             ("post:queue:" +:+ id)))
                           (take 500 (drop n q)))) as [Hsub|Hsub].
  - rewrite (userQueuedIds_objects uid (db w) _ Hsub). rewrite !bind_assoc.
    rewrite (bind_ok (lift (inr _)) _ _ _ _ eq_refl).
    rewrite (bind_ok (ret _) _ _ _ _ eq_refl).
    rewrite Echunk.
    destruct (Z.of_nat (length (id :: chunk)) <? 500) eqn:Elt.
    + exfalso. apply Hbad.
      apply Z.ltb_lt in Elt. rewrite <- Echunk in Elt.
      rewrite take_ge in Hsub by (rewrite length_take in Elt; lia).
      exact Hsub.
    + apply Z.ltb_ge in Elt. rewrite <- Echunk in Elt |- *.
      rewrite length_take in Elt.
      replace (Z.of_nat n + 500) with (Z.of_nat (n + 500)) by lia.
      match goal with |- context [scan _ _ _ fuel _ ?acc1 ?w1] =>
        destruct (IH (n + 500)%nat acc1 w1) as (m & l & El & Hl) end.
      { cbn [db]. fold q. intros Hrest. apply Hbad.
        rewrite <- (take_drop 500 (drop n q)). apply Forall_app.
        split; [exact Hsub|]. by rewrite drop_drop. }
      { cbn [db]. fold q. rewrite length_drop in *. lia. }
      exists m. eexists (_ :: _ :: l). split.
      * rewrite El. cbn [deletesInProgress db log]. f_equal. f_equal.
        by rewrite <- !app_assoc.
      * by repeat constructor.
  - apply not_Forall_Exists in Hsub; [|apply _].
    apply Exists_exists in Hsub as (x & Hx & Hnone).
    cbn [compose] in Hnone. apply eq_None_not_Some in Hnone.
    destruct (userQueuedIds_null uid
                (map (Db.getObject (db w))
                     (map (λ id, "post:queue:" +:+ id) (take 500 (drop n q)))))
      as [m Hm].
    { apply list_elem_of_fmap. exists ("post:queue:" +:+ x). split; [done|].
      apply list_elem_of_fmap. by exists x. }
    exists m. eexists [_; _]. split.
    + rewrite !bind_assoc. unfold bind at 1. rewrite Hm.
      cbn [lift throw deletesInProgress log]. by rewrite <- app_assoc.
    + by repeat constructor.
Qed.

(** C6, as stated, fails: the queue index lists ids 1 and 9, entry 1
    belongs to uid 42, and id 9 has no object.  The purge throws a
    [TypeError] after the two reads and removes nothing, although an entry
    of the queue matches the uid. *)
Lemma deleteQueued_stale_id_removes_nothing :
  queued_of "42" (db world_stale_queue)
            (Db.members (db world_stale_queue) "post:queue") = [VStr "1"] ∧
  deleteQueued quiet 3 "42" world_stale_queue =
    (Throw (TypeError "Cannot read properties of null (reading 'uid')"),
     mkWorld ∅ store_stale_queue
       [ Db (db_getSortedSetRange ["post:queue"] 0 499);
         Db (db_getObjects ["post:queue:1"; "post:queue:9"]) ]).
Proof. split; vm_compute; reflexivity. Qed.

(** C6, amended: with a queue collaborator that does not fail and fuel for
    the fetches, the purge does one of two things.  When every id of the
    queue index has its object in the store, it succeeds: after the reads
    of the scan it calls [posts.removeFromQueue] once for each entry of the
    whole queue whose [uid] field matches the uid, in queue order and one
    after the other, wherever the 500-entry chunks end.  When some id of
    the index has no object, it ends with a [TypeError] after reads only:
    nothing is removed.  An entry matches when [parseInt] gives equal
    numbers for its [uid] field and for the uid: for a uid and a field that
    are integers up to 2^53 in absolute value, when they are the same
    integer; for numerals in general, when they have the same double. *)
Theorem deleteQueued_removes_matching handle fuel uid w :
  (∀ id s, ∃ s', handle (posts_removeFromQueue id) s = inr s') →
  (length (Db.members (db w) "post:queue") < 500 * fuel)%nat →
  (Forall (λ id, is_Some (Db.getObject (db w) ("post:queue:" +:+ id)))
          (Db.members (db w) "post:queue") →
   ∃ scanned s',
     deleteQueued handle fuel uid w =
       (Ok tt,
        mkWorld (deletesInProgress w) s'
          (log w ++ scanned ++
           map (λ id, Ext (posts_removeFromQueue id))
               (queued_of uid (db w) (Db.members (db w) "post:queue")))) ∧
     Forall queue_read scanned) ∧
  (¬ Forall (λ id, is_Some (Db.getObject (db w) ("post:queue:" +:+ id)))
            (Db.members (db w) "post:queue") →
   ∃ m scanned,
     deleteQueued handle fuel uid w =
       (Throw (TypeError m),
        mkWorld (deletesInProgress w) (db w) (log w ++ scanned)) ∧
     Forall queue_read scanned) ∧
  (∀ n m d, uid = pretty n → Z.abs n ≤ 2 ^ 53 → Z.abs m ≤ 2 ^ 53 →
     Db.prop d "uid" = VNum m ∨ Db.prop d "uid" = VStr (pretty m) →
     matches uid d = bool_decide (m = n)) ∧
  (∀ n m d, uid = pretty n → Db.prop d "uid" = VStr (pretty m) →
     matches uid d = bool_decide (to_double m = to_double n)).
Proof.
  intros Hh Hlen. split; [|split; [|split]].
  - intros Hall. unfold deleteQueued, processSortedSet.
    destruct (scan_queue uid fuel 0 [] w Hall) as (l & El & Hl).
    { by rewrite drop_0. }
    change (Z.of_nat 0) with 0 in El. rewrite drop_0 in El.
    rewrite (bind_ok _ _ _ _ _ El). cbn [app].
    match goal with |- context [eachSeries ?ids ?f ?w1] =>
      destruct (eachSeries_removeFromQueue handle ids Hh w1) as [s' ->] end.
    exists l, s'. cbn [deletesInProgress log]. rewrite <- app_assoc.
    by split.
  - intros Hbad. unfold deleteQueued, processSortedSet.
    destruct (scan_queue_orphan uid fuel 0 [] w) as (m & l & El & Hl).
    { by rewrite drop_0. }
    { by rewrite drop_0. }
    change (Z.of_nat 0) with 0 in El.
    exists m, l. by rewrite (bind_throw _ _ _ _ _ El).
  - intros n m d -> Hn Hm Hd. by apply matches_integer.
  - intros n m d -> Hd. apply matches_numeral. by rewrite Hd.
Qed.

Lemma deleteQueued_removes_matching_witness :
  (∃ scanned s',
     deleteQueued quiet 3 "42" queue_world =
       (Ok tt,
        mkWorld ∅ s'
          (scanned ++ [ Ext (posts_removeFromQueue (VStr "250"));
                        Ext (posts_removeFromQueue (VStr "500"));
                        Ext (posts_removeFromQueue (VStr "501")) ]))) ∧
  (∃ m scanned,
     deleteQueued quiet 3 "42" world_stale_queue =
       (Throw (TypeError m),
        mkWorld (deletesInProgress world_stale_queue) (db world_stale_queue)
          (log world_stale_queue ++ scanned)) ∧
     Forall queue_read scanned) ∧
  matches "42" (<["uid" := VStr "42"]> ∅) = bool_decide (42 = 42).
Proof.
  split; [|split].
  - destruct (deleteQueued_removes_matching quiet 3 "42" queue_world)
      as (H & _).
    + intros id s. by exists s.
    + vm_compute. lia.
    + destruct H as (scanned & s' & E & _).
      { apply (bool_decide_unpack _). vm_compute. exact I. }
      exists scanned, s'. rewrite E.
      change (log queue_world) with (@nil Event).
      change (deletesInProgress queue_world) with (∅ : gmap string phase).
      cbn [app]. do 3 f_equal; vm_compute; reflexivity.
  - destruct (deleteQueued_removes_matching quiet 3 "42" world_stale_queue)
      as (_ & H & _).
    + intros id s. by exists s.
    + vm_compute. lia.
    + apply H. intros Hall.
      destruct (proj1 (Forall_forall _ _) Hall "9") as [o Ho].
      { apply (bool_decide_unpack _). vm_compute. exact I. }
      vm_compute in Ho. discriminate Ho.
  - destruct (deleteQueued_removes_matching quiet 3 "42" queue_world)
      as (_ & _ & H & _).
    + intros id s. by exists s.
    + vm_compute. lia.
    + apply (H 42 42).
      * reflexivity.
      * vm_compute. discriminate.
      * vm_compute. discriminate.
      * right. reflexivity.
Defined.

(** ** The follow graph *)







(** The example of the specification: 42 and 7 follow each other; after
    the deletion of 42 both counters of 7 are 0, whatever they were. *)
Example mutual_follow_counters :
  user_field (db world_mutual) "7" "followerCount" = VNum 5 ∧
  user_field (db world_mutual) "7" "followingCount" = VNum 9 ∧
  user_field (db (deleteAccount quiet "/uploads" "42" world_mutual).2)
             "7" "followerCount" = VNum 0 ∧
  user_field (db (deleteAccount quiet "/uploads" "42" world_mutual).2)
             "7" "followingCount" = VNum 0.
Proof. repeat split; vm_compute; reflexivity. Qed.

(** The same two users in a store that answers the cardinality reads
    before it applies the removal: the counters of 7 are written from sets
    that still hold 42, and stay at 1 while the sets are empty. *)
Example overtaken_reads_count_the_deleted_user :
  (deleteAccount quiet "/uploads" "42" world_racing).1 = Ok alice ∧
  user_field (db (deleteAccount quiet "/uploads" "42" world_racing).2)
             "7" "followerCount" = VNum 1 ∧
  user_field (db (deleteAccount quiet "/uploads" "42" world_racing).2)
             "7" "followingCount" = VNum 1 ∧
  Db.card (db (deleteAccount quiet "/uploads" "42" world_racing).2)
          "followers:7" = 0 ∧
  Db.card (db (deleteAccount quiet "/uploads" "42" world_racing).2)
          "following:7" = 0.
Proof. repeat split; vm_compute; reflexivity. Qed.



(** * Further properties *)

(** ** How a computation changes the store *)

Section Preserves.
Variable R : Store → Store → Prop.
Hypothesis R_refl : ∀ s, R s s.
Hypothesis R_trans : ∀ s1 s2 s3, R s1 s2 → R s2 s3 → R s1 s3.

Lemma preserves_ret {A} (a : A) : preserves R (ret a).
Proof. intros w. apply R_refl. Qed.

Lemma preserves_throw {A} e : preserves R (@throw A e).
Proof. intros w. apply R_refl. Qed.

Lemma preserves_pending {A} : preserves R (@pending A).
Proof. intros w. apply R_refl. Qed.

Lemma preserves_lift {A} (r : exn + A) : preserves R (lift r).
Proof. destruct r; [apply preserves_throw | apply preserves_ret]. Qed.

Lemma preserves_guard_read uid : preserves R (Guard.read_ uid).
Proof. intros w. apply R_refl. Qed.

Lemma preserves_overtaking : preserves R db_.overtaking.
Proof. intros w. apply R_refl. Qed.

Lemma preserves_guard_assign uid p : preserves R (Guard.assign uid p).
Proof. intros w. apply R_refl. Qed.

Lemma preserves_guard_remove uid : preserves R (Guard.remove uid).
Proof. intros w. apply R_refl. Qed.

Lemma preserves_emit e : preserves R (emit e).
Proof. intros w. apply R_refl. Qed.

Lemma preserves_bind {A B} (m : M A) (k : A → M B) :
  preserves R m → (∀ a, preserves R (k a)) → preserves R (bind m k).
Proof.
  intros Hm Hk w. specialize (Hm w). unfold bind.
  destruct (m w) as [[a|e|] w1]; simpl in *; try done.
  eapply R_trans; [exact Hm | apply Hk].
Qed.

Lemma preserves_query {A} op (f : Store → A) : preserves R (query op f).
Proof. intros w. rewrite query_run. apply R_refl. Qed.

Lemma preserves_update op f : (∀ s, R s (f s)) → preserves R (update op f).
Proof. intros Hf w. rewrite update_run. apply Hf. Qed.

Lemma preserves_call handle c : respects R handle → preserves R (call handle c).
Proof.
  intros Hh w. rewrite call_run.
  destruct (handle c (db w)) as [e|s] eqn:E; [apply R_refl|].
  by apply (Hh c).
Qed.

Lemma preserves_eachSeries {A} (l : list A) (f : A → M unit) :
  (∀ x, preserves R (f x)) → preserves R (eachSeries l f).
Proof.
  intros Hf. induction l as [|x l IH]; simpl; [apply preserves_ret|].
  apply preserves_bind; [apply Hf | intros _; apply IH].
Qed.

Lemma preserves_mapSeries {A B} (l : list A) (f : A → M B) :
  (∀ x, preserves R (f x)) → preserves R (mapSeries l f).
Proof.
  intros Hf. induction l as [|x l IH]; simpl; [apply preserves_ret|].
  apply preserves_bind; [apply Hf|]. intros y.
  apply preserves_bind; [apply IH|]. intros ys. apply preserves_ret.
Qed.

Lemma preserves_scan {S} setKey (process : S → list string → M S) options :
  (∀ acc ids, preserves R (process acc ids)) →
  ∀ fuel start acc, preserves R (scan setKey process options fuel start acc).
Proof.
  intros Hp. induction fuel as [|fuel IH]; intros start acc;
    [apply preserves_pending|].
  rewrite scan_unfold. cbv zeta.
  apply preserves_bind; [apply preserves_query|]. intros ids.
  destruct ids as [|id ids]; [apply preserves_ret|].
  apply preserves_bind; [apply Hp|]. intros acc'.
  case_match; [apply preserves_ret | apply IH].
Qed.

Lemma preserves_run {A} (m : M A) w r w' :
  preserves R m → m w = (r, w') → R (db w) (db w').
Proof. intros Hm E. specialize (Hm w). by rewrite E in Hm. Qed.

End Preserves.

Ltac preserves_step Hh :=
  lazymatch goal with
  | |- preserves _ (bind _ _) => apply preserves_bind; [done| |intros ?]
  | |- preserves _ (ret _) => by apply preserves_ret
  | |- preserves _ (throw _) => by apply preserves_throw
  | |- preserves _ (lift _) => by apply preserves_lift
  | |- preserves _ (query _ _) => by apply preserves_query
  | |- preserves _ (call _ _) => by apply preserves_call
  | |- preserves _ (Guard.read_ _) => by apply preserves_guard_read
  | |- preserves _ (Guard.assign _ _) => by apply preserves_guard_assign
  | |- preserves _ (Guard.remove _) => by apply preserves_guard_remove
  | |- preserves _ (emit _) => by apply preserves_emit
  | |- preserves _ (eachSeries _ _) =>
      apply preserves_eachSeries; [done|done|intros ?]
  | |- preserves _ (mapSeries _ _) =>
      apply preserves_mapSeries; [done|done|intros ?]
  | |- preserves _ (scan _ _ _ _ _ _) =>
      apply preserves_scan; [done|done|intros ? ?]
  end.

Ltac solve_preserves Hh :=
  unfold db_.getSortedSetRange, db_.getSortedSetRangeOf,
    db_.getSortedSetMembers, db_.sortedSetCard, db_.getObject,
    db_.getObjects, spawn, processSortedSet;
  repeat preserves_step Hh.

(** ** [User.deleteContent] changes the store only through its collaborators *)

Lemma deleteContent_reads (R : Store → Store → Prop) handle upload_path
    fuel callerUid uid :
  (∀ s, R s s) → (∀ s1 s2 s3, R s1 s2 → R s2 s3 → R s1 s3) →
  respects R handle →
  preserves R (deleteContent handle upload_path fuel callerUid uid).
Proof.
  intros R_refl R_trans Hh.
  unfold deleteContent. case_match; [by apply preserves_throw|].
  apply preserves_bind; [done|by apply preserves_guard_read|]. intros entry.
  case_match; [by apply preserves_throw|].
  unfold deleteImages, deletePosts, deleteTopics, deleteUploads, deleteQueued.
  solve_preserves Hh.
Qed.

(** X1: [User.deleteContent] itself only reads the store.  Whatever relation
    between stores (reflexive and transitive) every successful collaborator
    call keeps, the store the phase leaves is related to the store it
    found; with collaborators that leave the store alone the store is
    unchanged. *)
Theorem deleteContent_preserves (R : Store → Store → Prop) handle upload_path
    fuel callerUid uid w :
  (∀ s, R s s) → (∀ s1 s2 s3, R s1 s2 → R s2 s3 → R s1 s3) →
  respects R handle →
  R (db w) (db (deleteContent handle upload_path fuel callerUid uid w).2).
Proof. intros R_refl R_trans Hh. revert w. by apply deleteContent_reads. Qed.

Lemma deleteContent_preserves_witness :
  db (deleteContent quiet "/uploads" 3 "1" "42" world_alice).2 = store_alice.
Proof.
  symmetry.
  apply (deleteContent_preserves eq quiet "/uploads" 3 "1" "42" world_alice).
  - reflexivity.
  - intros s1 s2 s3 -> ->. reflexivity.
  - intros c s s' [= ->]. reflexivity.
Defined.

(** ** What [User.deleteContent] asks of the store and of its collaborators *)










(** ** The guard: other uids, retries, inherited names *)

Lemma deleteContent_blocked handle upload_path fuel callerUid uid w :
  le0 (parseInt uid) = false →
  Guard.truthy (Guard.get (deletesInProgress w) uid) = true →
  deleteContent handle upload_path fuel callerUid uid w = (Throw AlreadyDeleting, w).
Proof.
  intros Hv Hg. unfold deleteContent. rewrite Hv.
  rewrite (bind_ok (Guard.read_ uid) _ w _ w eq_refl). by rewrite Hg.
Qed.

Lemma deleteAccount_blocked handle upload_path uid w :
  Guard.marks user_deleteAccount (Guard.get (deletesInProgress w) uid) = true →
  deleteAccount handle upload_path uid w = (Throw AlreadyDeleting, w).
Proof.
  intros Hm. unfold deleteAccount.
  rewrite (bind_ok (Guard.read_ uid) _ w _ w eq_refl). by rewrite Hm.
Qed.

Lemma guard_set_other uid uid' p (g : gmap string phase) :
  uid' ≠ uid → Guard.set uid p g !! uid' = g !! uid'.
Proof.
  intros Hne. unfold Guard.set. case_bool_decide; [done|].
  by rewrite lookup_insert_ne.
Qed.

Lemma guard_set_own uid p (g : gmap string phase) :
  uid ≠ "__proto__" → Guard.set uid p g !! uid = Some p.
Proof.
  intros Hne. unfold Guard.set. rewrite bool_decide_eq_false_2 by done.
  apply lookup_insert_eq.
Qed.

Lemma guard_free_not_proto (g : gmap string phase) uid :
  Guard.truthy (Guard.get g uid) = false → uid ≠ "__proto__".
Proof.
  intros H ->. unfold Guard.get in H.
  destruct (g !! "__proto__"); discriminate H.
Qed.

Lemma deleteContent_other handle upload_path fuel callerUid uid uid' w :
  uid' ≠ uid →
  deletesInProgress (deleteContent handle upload_path fuel callerUid uid w).2
    !! uid' = deletesInProgress w !! uid'.
Proof.
  intros Hne. destruct (le0 (parseInt uid)) eqn:Hv.
  { by rewrite deleteContent_rejects. }
  destruct (Guard.truthy (Guard.get (deletesInProgress w) uid)) eqn:Hg.
  { by rewrite deleteContent_blocked. }
  rewrite deleteContent_guard by done.
  destruct (deleteContent handle upload_path fuel callerUid uid w).1.
  - by rewrite lookup_delete_ne.
  - by apply guard_set_other.
  - by apply guard_set_other.
Qed.

Lemma deleteAccount_other handle upload_path uid uid' w :
  uid' ≠ uid →
  deletesInProgress (deleteAccount handle upload_path uid w).2 !! uid'
  = deletesInProgress w !! uid'.
Proof.
  intros Hne.
  destruct (Guard.marks user_deleteAccount
              (Guard.get (deletesInProgress w) uid)) eqn:Hm.
  { by rewrite deleteAccount_blocked. }
  destruct (deleteAccount_run handle upload_path uid w Hm)
    as (r & w' & l & E & _ & Hno & Hyes).
  rewrite E. cbn [fst snd] in *.
  destruct (has_user (db w) uid).
  - rewrite Hyes by done.
    destruct r; [by rewrite lookup_delete_ne | by apply guard_set_other
                | by apply guard_set_other].
  - destruct Hno as (_ & _ & _ & ->); [done|]. by rewrite lookup_delete_ne.
Qed.

(** X3: a deletion for one uid never touches the guard entry of another:
    after [User.deleteContent], [User.deleteAccount] or [User.delete] for
    [uid], however they end, the entry of every other uid is what it
    was. *)
Theorem guard_other_uid handle upload_path fuel callerUid uid uid' w :
  uid' ≠ uid →
  deletesInProgress (deleteContent handle upload_path fuel callerUid uid w).2
    !! uid' = deletesInProgress w !! uid' ∧
  deletesInProgress (deleteAccount handle upload_path uid w).2 !! uid'
    = deletesInProgress w !! uid' ∧
  deletesInProgress (delete_ handle upload_path fuel callerUid uid w).2 !! uid'
    = deletesInProgress w !! uid'.
Proof.
  intros Hne. split; [by apply deleteContent_other|].
  split; [by apply deleteAccount_other|].
  pose proof (deleteContent_other handle upload_path fuel callerUid uid uid' w Hne)
    as Hc.
  unfold delete_, bind.
  destruct (deleteContent handle upload_path fuel callerUid uid w)
    as [[[]|e|] w1]; cbn [snd] in *; try exact Hc.
  rewrite <- Hc. by apply deleteAccount_other.
Qed.

Lemma guard_other_uid_witness :
  deletesInProgress (delete_ quiet "/uploads" 3 "1" "7" world_content_phase).2
    !! "42" = Some user_delete.
Proof.
  destruct (guard_other_uid quiet "/uploads" 3 "1" "7" "42" world_content_phase)
    as (_ & _ & H).
  { discriminate. }
  rewrite H. reflexivity.
Defined.

(** X4: when [User.deleteContent] has set the guard entry and then ends
    with an error, every later [User.deleteContent] and [User.delete] for
    that uid fails with AlreadyDeleting in an unchanged world, as long as
    the guard object is as that call left it. *)
Theorem deleteContent_failure_blocks_retry handle upload_path fuel callerUid
    uid w e :
  le0 (parseInt uid) = false →
  Guard.truthy (Guard.get (deletesInProgress w) uid) = false →
  (deleteContent handle upload_path fuel callerUid uid w).1 = Throw e →
  ∀ handle' upload_path' fuel' callerUid' w2,
    deletesInProgress w2 =
      deletesInProgress (deleteContent handle upload_path fuel callerUid uid w).2 →
    deleteContent handle' upload_path' fuel' callerUid' uid w2
      = (Throw AlreadyDeleting, w2) ∧
    delete_ handle' upload_path' fuel' callerUid' uid w2
      = (Throw AlreadyDeleting, w2).
Proof.
  intros Hv Hg He handle' upload_path' fuel' callerUid' w2 Hw2.
  rewrite deleteContent_guard, He in Hw2 by done.
  assert (Hc : deleteContent handle' upload_path' fuel' callerUid' uid w2
               = (Throw AlreadyDeleting, w2)).
  { apply deleteContent_held; [done|]. rewrite Hw2.
    rewrite guard_set_own by (by eapply guard_free_not_proto). by eexists. }
  split; [exact Hc|]. unfold delete_. by rewrite (bind_throw _ _ _ _ _ Hc).
Qed.

Lemma deleteContent_failure_blocks_retry_witness :
  delete_ quiet "/uploads" 3 "1" "42"
    (deleteContent purge_fails "/uploads" 3 "1" "42" world_alice).2
  = (Throw AlreadyDeleting,
     (deleteContent purge_fails "/uploads" 3 "1" "42" world_alice).2).
Proof.
  apply (deleteContent_failure_blocks_retry purge_fails "/uploads" 3 "1" "42"
           world_alice (Error "[[error:no-privileges]]"));
    [reflexivity | reflexivity | vm_compute; reflexivity | reflexivity].
Defined.

(** X5: when [User.deleteAccount] has found the user record and then ends
    with an error, the account-phase marker stays: every later
    [User.deleteAccount] for that uid, and every later
    [User.deleteContent] that passes validation, fails with
    AlreadyDeleting. *)
Theorem deleteAccount_failure_blocks_retry handle upload_path uid w e :
  uid ≠ "__proto__" →
  Guard.marks user_deleteAccount (Guard.get (deletesInProgress w) uid) = false →
  has_user (db w) uid = true →
  (deleteAccount handle upload_path uid w).1 = Throw e →
  ∀ handle' upload_path' w2,
    deletesInProgress w2 =
      deletesInProgress (deleteAccount handle upload_path uid w).2 →
    deleteAccount handle' upload_path' uid w2 = (Throw AlreadyDeleting, w2) ∧
    (∀ fuel callerUid,
       le0 (parseInt uid) = false →
       deleteContent handle' upload_path' fuel callerUid uid w2
       = (Throw AlreadyDeleting, w2)).
Proof.
  intros Hp Hm Hu He handle' upload_path' w2 Hw2.
  destruct (deleteAccount_run handle upload_path uid w Hm)
    as (r & w' & l & E & _ & _ & Hyes).
  rewrite E in He, Hw2. cbn [fst snd] in *. subst r.
  rewrite (Hyes Hu) in Hw2.
  assert (Hl : deletesInProgress w2 !! uid = Some user_deleteAccount).
  { rewrite Hw2. by apply guard_set_own. }
  split; [by apply deleteAccount_held|].
  intros fuel callerUid Hv. apply deleteContent_held; [done|]. by eexists.
Qed.

Lemma deleteAccount_failure_blocks_retry_witness :
  deleteAccount quiet "/uploads" "42"
    (deleteAccount rimraf_fails "/uploads" "42" world_alice).2
  = (Throw AlreadyDeleting,
     (deleteAccount rimraf_fails "/uploads" "42" world_alice).2).
Proof.
  apply (deleteAccount_failure_blocks_retry rimraf_fails "/uploads" "42"
           world_alice (Error "EACCES: permission denied"));
    [discriminate | reflexivity | reflexivity | vm_compute; reflexivity
    | reflexivity].
Defined.

(** ** A successful [User.deleteAccount] *)

Lemma del_fold_gone keys s k :
  k ∈ keys →
  zsets (foldr Db.del s keys) !! k = None ∧
  hashes (foldr Db.del s keys) !! k = None ∧
  sets (foldr Db.del s keys) !! k = None.
Proof.
  induction keys as [|k' keys IH]; intros Hk; [by apply elem_of_nil in Hk|].
  cbn [foldr]. unfold Db.del at 1 3 5. cbn [zsets hashes sets].
  destruct (decide (k' = k)) as [->|Hne].
  - by rewrite !lookup_delete_eq.
  - rewrite !lookup_delete_ne by done. apply IH.
    apply elem_of_cons in Hk as [->|Hk]; [done|exact Hk].
Qed.

Lemma deleteAccount_ok handle upload_path uid w userData w' :
  deleteAccount handle upload_path uid w = (Ok userData, w') →
  Guard.marks user_deleteAccount (Guard.get (deletesInProgress w) uid) = false ∧
  hashes (db w) !! ("user:" +:+ uid) = Some userData ∧
  truthy (Db.prop userData "username") = true ∧
  deletesInProgress w' = delete uid (deletesInProgress w) ∧
  ∃ wN,
    db w' = foldr Db.del (db wN) (deleteAccount_last_keys uid) ∧
    log w' = log wN ++ [Db (db_deleteAll (deleteAccount_last_keys uid))].
Proof.
  intros E.
  assert (Hm : Guard.marks user_deleteAccount
                 (Guard.get (deletesInProgress w) uid) = false).
  { destruct (Guard.marks _ _) eqn:Hm; [|done].
    rewrite deleteAccount_blocked in E by done. discriminate E. }
  split; [exact Hm|].
  assert (Hg : deletesInProgress w' = delete uid (deletesInProgress w)).
  { destruct (deleteAccount_run handle upload_path uid w Hm)
      as (r & w1 & l & E1 & _ & Hno & Hyes).
    rewrite E in E1. injection E1 as <- <-.
    destruct (has_user (db w) uid).
    - by apply Hyes.
    - by destruct Hno as (_ & _ & _ & ?). }
  unfold deleteAccount in E.
  apply bind_ok_inv in E as (entry & w0 & E0 & E). injection E0 as <- <-.
  rewrite Hm in E.
  apply bind_ok_inv in E as ([] & w1 & E1 & E). injection E1 as <-.
  apply bind_ok_inv in E as ([] & w2 & E2 & E).
  unfold removeFromSortedSets, db_.sortedSetsRemove in E2.
  rewrite update_run in E2. injection E2 as <-.
  apply bind_ok_inv in E as (record & w3 & E3 & E).
  unfold db_.getObject in E3. rewrite query_run in E3.
  injection E3 as <- <-. cbn [db] in E.
  change (Db.zrem "users:joindate" uid _) with (unlisted uid (db w)) in E.
  unfold Db.getObject in E. rewrite hashes_unlisted in E.
  destruct (hashes (db w) !! ("user:" +:+ uid)) as [g|];
    [|ok_inv E; discriminate E].
  destruct (truthy (Db.prop g "username")) eqn:Ht;
    [|ok_inv E; discriminate E].
  cbn [negb] in E.
  do 4 ok_inv E. ok_inv E. ok_inv E. do 13 ok_inv E.
  unfold db_.deleteAll in E.
  rewrite (bind_ok (update _ _) _ _ _ _ (update_run _ _ _)) in E.
  injection E as <- <-.
  split; [reflexivity|]. split; [exact Ht|]. split; [exact Hg|].
  eexists. split; reflexivity.
Qed.

(** X6: when [User.deleteAccount] succeeds, the user record and the user's
    followers, following, followed-tags, followed-topics and
    ignored-topics indices are absent from the store, the guard entry of
    the uid is gone, and the deletion of those keys is the last request
    the call has made. *)
Theorem deleteAccount_success handle upload_path uid w userData w' :
  deleteAccount handle upload_path uid w = (Ok userData, w') →
  (∀ k, k ∈ deleteAccount_last_keys uid →
     zsets (db w') !! k = None ∧ hashes (db w') !! k = None ∧
     sets (db w') !! k = None) ∧
  has_user (db w') uid = false ∧
  deletesInProgress w' !! uid = None ∧
  ∃ l, log w' = l ++ [Db (db_deleteAll (deleteAccount_last_keys uid))].
Proof.
  intros E.
  destruct (deleteAccount_ok _ _ _ _ _ _ E)
    as (_ & _ & _ & Hg & wN & Hdb & Hlog).
  assert (Hgone : ∀ k, k ∈ deleteAccount_last_keys uid →
            zsets (db w') !! k = None ∧ hashes (db w') !! k = None ∧
            sets (db w') !! k = None).
  { intros k Hk. rewrite Hdb. by apply del_fold_gone. }
  split; [exact Hgone|]. split.
  - unfold has_user, Db.getObject.
    destruct (Hgone ("user:" +:+ uid)) as (_ & -> & _); [|done].
    unfold deleteAccount_last_keys. rewrite !elem_of_cons. tauto.
  - split; [rewrite Hg; apply lookup_delete_eq|]. by exists (log wN).
Qed.

Lemma deleteAccount_success_witness :
  hashes (db (deleteAccount quiet "/uploads" "42" world_alice).2) !! "user:42"
  = None.
Proof.
  destruct (deleteAccount_success quiet "/uploads" "42" world_alice alice
              (deleteAccount quiet "/uploads" "42" world_alice).2)
    as (H & _).
  { vm_compute. reflexivity. }
  destruct (H "user:42") as (_ & H2 & _); [|exact H2].
  apply (bool_decide_unpack _). vm_compute. exact I.
Defined.

(** X7: the value [User.deleteAccount] returns is the user record as the
    store held it when the call began, and that record has a (truthy)
    username. *)
Theorem deleteAccount_returns_record handle upload_path uid w userData w' :
  deleteAccount handle upload_path uid w = (Ok userData, w') →
  hashes (db w) !! ("user:" +:+ uid) = Some userData ∧
  truthy (Db.prop userData "username") = true.
Proof.
  intros E.
  by destruct (deleteAccount_ok _ _ _ _ _ _ E) as (_ & ? & ? & _).
Qed.

Lemma deleteAccount_returns_record_witness :
  hashes (db world_alice) !! "user:42" = Some alice.
Proof.
  destruct (deleteAccount_returns_record quiet "/uploads" "42" world_alice alice
              (deleteAccount quiet "/uploads" "42" world_alice).2)
    as (H & _); [vm_compute; reflexivity | exact H].
Defined.

(** X8: right after a successful [User.deleteAccount], another
    [User.deleteAccount] for the same uid (with any collaborators) fails
    with UserNotFound; it has again asked the store to remove the uid from
    the global sorted sets and to load the record, and nothing else. *)
Theorem deleteAccount_twice handle upload_path uid w userData w' :
  deleteAccount handle upload_path uid w = (Ok userData, w') →
  ∀ handle' upload_path',
    deleteAccount handle' upload_path' uid w' =
    (Throw UserNotFound,
     mkWorld (delete uid (deletesInProgress w')) (unlisted uid (db w'))
       (log w' ++ [Db (db_sortedSetsRemove removeFromSortedSets_keys uid);
                   Db (db_getObject ("user:" +:+ uid))])).
Proof.
  intros E handle' upload_path'.
  destruct (deleteAccount_ok _ _ _ _ _ _ E)
    as (_ & _ & _ & Hg & wN & Hdb & _).
  apply deleteAccount_missing.
  - rewrite Hg. unfold Guard.get. rewrite lookup_delete_eq. by case_match.
  - unfold has_user, Db.getObject. rewrite Hdb.
    destruct (del_fold_gone (deleteAccount_last_keys uid) (db wN)
                ("user:" +:+ uid)) as (_ & -> & _); [|done].
    unfold deleteAccount_last_keys. rewrite !elem_of_cons. tauto.
Qed.

Lemma deleteAccount_twice_witness :
  (deleteAccount quiet "/uploads" "42"
     (deleteAccount quiet "/uploads" "42" world_alice).2).1
  = Throw UserNotFound.
Proof.
  rewrite (deleteAccount_twice quiet "/uploads" "42" world_alice alice
             (deleteAccount quiet "/uploads" "42" world_alice).2);
    [reflexivity | vm_compute; reflexivity].
Defined.

(** ** The global user counter *)

Lemma same_global_refl s : same_global s s.
Proof. reflexivity. Qed.

Lemma same_global_trans s1 s2 s3 :
  same_global s1 s2 → same_global s2 s3 → same_global s1 s3.
Proof. unfold same_global. congruence. Qed.

Lemma hashes_srem_fold v keys s :
  hashes (foldr (λ k, Db.srem k v) s keys) = hashes s.
Proof. induction keys as [|k keys IH]; simpl; done. Qed.

Lemma hashes_del_fold keys s k :
  k ∉ keys → hashes (foldr Db.del s keys) !! k = hashes s !! k.
Proof.
  induction keys as [|k' keys IH]; intros Hk; [done|].
  apply not_elem_of_cons in Hk as [Hne Hk].
  cbn [foldr]. unfold Db.del at 1. cbn [hashes].
  rewrite lookup_delete_ne by done. by apply IH.
Qed.

Ltac not_global :=
  let H := fresh in
  intros H; apply (f_equal (String.get 0)) in H; vm_compute in H;
  discriminate H.

Lemma global_not_in_keys uid : "global" ∉ keys uid.
Proof.
  unfold keys. rewrite !not_elem_of_cons.
  repeat split; try not_global. apply not_elem_of_nil.
Qed.

Lemma global_not_in_last_keys uid : "global" ∉ deleteAccount_last_keys uid.
Proof.
  unfold deleteAccount_last_keys. rewrite !not_elem_of_cons.
  repeat split; try not_global. apply not_elem_of_nil.
Qed.

Lemma sortedSetsRemove_global keys v :
  preserves same_global (db_.sortedSetsRemove keys v).
Proof.
  apply preserves_update. intros s. unfold same_global. f_equal.
  apply (hashes_zrem_fold id (λ _, v)).
Qed.

Lemma setsRemove_global keys v :
  preserves same_global (db_.setsRemove keys v).
Proof.
  apply preserves_update. intros s. unfold same_global. f_equal.
  apply hashes_srem_fold.
Qed.

Section GlobalCounter.
Variable handle : Call → Store → exn + Store.
Hypothesis handle_global : respects same_global handle.

Ltac sg_step :=
  lazymatch goal with
  | |- preserves _ (bind _ _) =>
      apply preserves_bind; [exact same_global_trans| |intros ?]
  | |- preserves _ (ret _) => apply preserves_ret; exact same_global_refl
  | |- preserves _ (lift _) => apply preserves_lift; exact same_global_refl
  | |- preserves _ db_.overtaking =>
      apply preserves_overtaking; exact same_global_refl
  | |- preserves _ (emit _) => apply preserves_emit; exact same_global_refl
  | |- preserves _ (query _ _) =>
      apply preserves_query; exact same_global_refl
  | |- preserves _ (call _ _) =>
      apply preserves_call; [exact same_global_refl | exact handle_global]
  | |- preserves _ (eachSeries _ _) =>
      apply preserves_eachSeries;
        [exact same_global_refl | exact same_global_trans | intros ?]
  | |- preserves _ (mapSeries _ _) =>
      apply preserves_mapSeries;
        [exact same_global_refl | exact same_global_trans | intros ?]
  | |- preserves _ (db_.sortedSetsRemove _ _) => apply sortedSetsRemove_global
  | |- preserves _ (db_.setsRemove _ _) => apply setsRemove_global
  end.

Ltac solve_sg :=
  unfold db_.getSortedSetRange, db_.getSortedSetRangeOf,
    db_.getSortedSetMembers, db_.sortedSetCard, db_.getObject,
    db_.getObjects, spawn;
  repeat sg_step.

Lemma removeFromSortedSets_global uid :
  preserves same_global (removeFromSortedSets uid).
Proof. apply sortedSetsRemove_global. Qed.

Lemma sortedSetRemoveBulk_global data :
  preserves same_global (db_.sortedSetRemoveBulk data).
Proof.
  apply preserves_update. intros s. unfold same_global. f_equal.
  apply (hashes_zrem_fold fst (λ kv, toString kv.2)).
Qed.

Lemma deleteAll_global keys :
  "global" ∉ keys → preserves same_global (db_.deleteAll keys).
Proof.
  intros Hk. apply preserves_update. intros s. by apply hashes_del_fold.
Qed.

Lemma setRemove_global key v : preserves same_global (db_.setRemove key v).
Proof. apply preserves_update. by intros s. Qed.

Lemma deleteVotes_global uid : preserves same_global (deleteVotes handle uid).
Proof. unfold deleteVotes. solve_sg. Qed.

Lemma deleteChats_global uid : preserves same_global (deleteChats handle uid).
Proof. unfold deleteChats. solve_sg. Qed.

Lemma deleteUserIps_global uid : preserves same_global (deleteUserIps uid).
Proof.
  unfold deleteUserIps. solve_sg.
  apply preserves_update. intros s. unfold same_global, Db.del. cbn [hashes].
  apply lookup_delete_ne. not_global.
Qed.

Lemma deleteUserFromFollowers_global uid :
  preserves same_global (deleteUserFromFollowers uid).
Proof.
  unfold deleteUserFromFollowers, counts, persist. solve_sg.
  - apply preserves_update. intros s. unfold same_global, Db.setField.
    cbn [hashes]. apply lookup_insert_ne. not_global.
  - apply preserves_update. intros s. unfold same_global, Db.setField.
    cbn [hashes]. apply lookup_insert_ne. not_global.
Qed.

Lemma deleteUserFromFollowedTopics_global uid :
  preserves same_global (deleteUserFromFollowedTopics uid).
Proof. unfold deleteUserFromFollowedTopics. solve_sg. Qed.

Lemma deleteUserFromIgnoredTopics_global uid :
  preserves same_global (deleteUserFromIgnoredTopics uid).
Proof. unfold deleteUserFromIgnoredTopics. solve_sg. Qed.

Lemma deleteUserFromFollowedTags_global uid :
  preserves same_global (deleteUserFromFollowedTags uid).
Proof. unfold deleteUserFromFollowedTags. solve_sg. Qed.

Lemma deleteImages_global upload_path uid :
  preserves same_global (deleteImages handle upload_path uid).
Proof. unfold deleteImages. solve_sg. Qed.

Lemma call_global c : preserves same_global (call handle c).
Proof. solve_sg. Qed.

End GlobalCounter.

Lemma userCount_decrField s :
  userCount (Db.decrField "global" "userCount" s)
  = VNum (Db.numeric (userCount s) - 1).
Proof.
  unfold userCount, Db.decrField, Db.setField, Db.prop. cbn [hashes].
  rewrite lookup_insert_eq. cbn [default from_option id].
  by rewrite lookup_insert_eq.
Qed.

Lemma userCount_same_global s s' :
  same_global s s' → userCount s' = userCount s.
Proof. unfold same_global, userCount. by intros ->. Qed.

(** X9: when [User.deleteAccount] succeeds and no collaborator call changes
    the object ["global"], the global [userCount] ends one below the
    number it held when the call began (a missing or non-numeric count
    being read as 0). *)
Theorem deleteAccount_userCount handle upload_path uid w userData w' :
  respects same_global handle →
  deleteAccount handle upload_path uid w = (Ok userData, w') →
  userCount (db w') = VNum (Db.numeric (userCount (db w)) - 1).
Proof.
  intros Hh E. unfold deleteAccount in E.
  apply bind_ok_inv in E as (entry & w0 & E0 & E). injection E0 as <- <-.
  destruct (Guard.marks user_deleteAccount _); [discriminate E|].
  apply bind_ok_inv in E as ([] & w1 & E1 & E). injection E1 as <-.
  apply bind_ok_inv in E as ([] & w2 & E2 & E).
  apply (preserves_run same_global _ _ _ _ (removeFromSortedSets_global uid))
    in E2. cbn [db] in E2.
  apply bind_ok_inv in E as (record & w3 & E3 & E).
  apply (preserves_run same_global _ _ _ _
           (preserves_query same_global same_global_refl _ _)) in E3.
  destruct record as [g|]; [|ok_inv E; discriminate E].
  destruct (negb (truthy (Db.prop g "username")));
    [ok_inv E; discriminate E|].
  apply bind_ok_inv in E as ([] & w4 & E4 & E).
  apply (preserves_run same_global _ _ _ _ (call_global handle Hh _)) in E4.
  apply bind_ok_inv in E as ([] & w5 & E5 & E).
  apply (preserves_run same_global _ _ _ _ (deleteVotes_global handle Hh uid))
    in E5.
  apply bind_ok_inv in E as ([] & w6 & E6 & E).
  apply (preserves_run same_global _ _ _ _ (deleteChats_global handle Hh uid))
    in E6.
  apply bind_ok_inv in E as ([] & w7 & E7 & E).
  apply (preserves_run same_global _ _ _ _ (call_global handle Hh _)) in E7.
  apply bind_ok_inv in E as (bulk & w8 & E8 & E).
  apply (preserves_run same_global _ _ _ _
           (preserves_lift same_global same_global_refl _)) in E8.
  apply bind_ok_inv in E as ([] & w9 & E9 & E).
  apply (preserves_run same_global _ _ _ _ (sortedSetRemoveBulk_global _))
    in E9.
  apply bind_ok_inv in E as ([] & w10 & E10 & E).
  unfold db_.decrObjectField in E10. rewrite update_run in E10.
  injection E10 as <-.
  assert (Hpre : same_global (db w) (db w9)).
  { repeat (eapply same_global_trans; [eassumption|]).
    apply same_global_refl. }
  match type of E with ?t _ = _ =>
    assert (Hrest : preserves same_global t) end.
  { clear - Hh.
    apply preserves_bind;
      [exact same_global_trans
      |apply deleteAll_global, global_not_in_keys|intros _].
    apply preserves_bind;
      [exact same_global_trans|apply setRemove_global|intros _].
    apply preserves_bind;
      [exact same_global_trans|apply deleteUserIps_global|intros _].
    apply preserves_bind;
      [exact same_global_trans|apply deleteUserFromFollowers_global|intros _].
    apply preserves_bind;
      [exact same_global_trans|apply deleteUserFromFollowedTopics_global
      |intros _].
    apply preserves_bind;
      [exact same_global_trans|apply deleteUserFromIgnoredTopics_global
      |intros _].
    apply preserves_bind;
      [exact same_global_trans|apply deleteUserFromFollowedTags_global
      |intros _].
    apply preserves_bind;
      [exact same_global_trans|by apply deleteImages_global|intros _].
    do 4 (apply preserves_bind;
            [exact same_global_trans|by apply call_global|intros _]).
    apply preserves_bind;
      [exact same_global_trans
      |apply deleteAll_global, global_not_in_last_keys|intros _].
    apply preserves_bind;
      [exact same_global_trans
      |apply preserves_guard_remove, same_global_refl|intros _].
    apply preserves_ret, same_global_refl. }
  apply (preserves_run same_global _ _ _ _ Hrest) in E. cbn [db] in E.
  rewrite (userCount_same_global _ _ E), userCount_decrField.
  by rewrite (userCount_same_global _ _ Hpre).
Qed.

Lemma deleteAccount_userCount_witness :
  userCount (db (deleteAccount quiet "/uploads" "42" world_alice).2)
  = VNum (Db.numeric (userCount (db world_alice)) - 1).
Proof.
  apply (deleteAccount_userCount quiet "/uploads" "42" world_alice alice).
  - intros c s s' [= ->]. reflexivity.
  - vm_compute. reflexivity.
Defined.

(** ** [User.delete]: the two phases in sequence *)

Lemma raises_lift {A} (E : exn → Prop) (r : exn + A) :
  (∀ e, r = inl e → E e) → raises E (lift r).
Proof.
  intros HE w e w'. destruct r as [e1|a]; [|discriminate].
  intros [= <- _]. by apply HE.
Qed.

Lemma raises_scan {S} E setKey (process : S → list string → M S) options :
  (∀ acc ids, raises E (process acc ids)) →
  ∀ fuel start acc, raises E (scan setKey process options fuel start acc).
Proof.
  intros Hp. induction fuel as [|fuel IH]; intros start acc;
    [apply raises_pending|].
  rewrite scan_unfold. cbv zeta.
  apply raises_bind; [apply raises_store|]. intros ids.
  destruct ids as [|id ids]; [apply raises_ret|].
  apply raises_bind; [apply Hp|]. intros acc'.
  case_match; [apply raises_ret | apply IH].
Qed.

Lemma userQueuedIds_error uid data e :
  userQueuedIds uid data = inl e → ∃ m, e = TypeError m.
Proof.
  induction data as [|[d|] data IH]; cbn [userQueuedIds].
  - discriminate.
  - destruct (userQueuedIds uid data) as [e1|ids]; [|discriminate].
    intros [= <-]. by apply IH.
  - intros [= <-]. by eexists.
Qed.

(** Past its two checks [User.deleteContent] ends in error only with a
    [TypeError] of the run time or with what a collaborator throws. *)
Lemma deleteContent_free_raises handle upload_path fuel callerUid uid w e w' :
  le0 (parseInt uid) = false →
  Guard.truthy (Guard.get (deletesInProgress w) uid) = false →
  deleteContent handle upload_path fuel callerUid uid w = (Throw e, w') →
  (∃ m, e = TypeError m) ∨ external handle e.
Proof.
  intros Hv Hg. unfold deleteContent. rewrite Hv.
  rewrite (bind_ok (Guard.read_ uid) _ w _ w eq_refl), Hg.
  set (E := λ e, (∃ m, e = TypeError m) ∨ external handle e).
  assert (Hext : ∀ e, external handle e → E e) by (intros e1 He; by right).
  match goal with |- ?t w = _ → _ => assert (Hr : raises E t) end;
    [|by apply Hr].
  clear w w' e Hg Hv.
  apply raises_bind; [apply raises_guard_assign|]. intros _.
  apply raises_bind; [by apply deleteImages_raises|]. intros _.
  apply raises_bind.
  { unfold deletePosts, processSortedSet. apply raises_scan.
    intros _ ids. by apply raises_call. }
  intros _. apply raises_bind.
  { unfold deleteTopics, processSortedSet. apply raises_scan.
    intros _ ids. apply raises_eachSeries. intros tid. by apply raises_call. }
  intros _. apply raises_bind.
  { unfold deleteUploads. apply raises_bind; [apply raises_store|].
    intros uploads. by apply raises_call. }
  intros _. apply raises_bind; [|intros _; apply raises_guard_remove].
  unfold deleteQueued, processSortedSet. apply raises_bind.
  - apply raises_scan. intros acc ids.
    apply raises_bind; [apply raises_store|]. intros data.
    apply raises_bind; [|intros q; apply raises_ret].
    apply raises_lift. intros e He. left. by eapply userQueuedIds_error.
  - intros deleteIds. apply raises_eachSeries. intros id. by apply raises_call.
Qed.

(** Past its check [User.deleteAccount] never ends with AlreadyDeleting of
    its own. *)
Lemma deleteAccount_free_raises handle upload_path uid w e w' :
  Guard.marks user_deleteAccount (Guard.get (deletesInProgress w) uid) = false →
  deleteAccount handle upload_path uid w = (Throw e, w') →
  e = UserNotFound ∨ (∃ m, e = TypeError m) ∨ external handle e.
Proof.
  intros Hm. unfold deleteAccount.
  rewrite (bind_ok (Guard.read_ uid) _ w _ w eq_refl), Hm.
  set (E := λ e, e = UserNotFound ∨ (∃ m, e = TypeError m) ∨ external handle e).
  assert (Hext : ∀ e, external handle e → E e)
    by (intros e1 He; right; by right).
  match goal with |- ?t w = _ → _ => assert (Hr : raises E t) end;
    [|by apply Hr].
  clear w w' e Hm. unfold removeFromSortedSets.
  apply raises_bind; [apply raises_guard_assign|]. intros _.
  apply raises_bind; [apply raises_store|]. intros _.
  apply raises_bind; [apply raises_store|]. intros record.
  assert (Hno : raises E
                  (Guard.remove uid >> @throw (gmap string value) UserNotFound)).
  { apply raises_bind; [apply raises_guard_remove|]. intros _.
    apply raises_throw. by left. }
  destruct record as [userData|]; [|exact Hno].
  case_match; [exact Hno|].
  apply raises_bind; [by apply raises_call|]. intros _.
  apply raises_bind; [by apply deleteVotes_raises|]. intros _.
  apply raises_bind; [by apply deleteChats_raises|]. intros _.
  apply raises_bind; [by apply raises_call|]. intros _.
  apply raises_bind.
  { apply raises_lift. intros e He. right. left. by eapply bulkRemove_error. }
  intros bulk.
  do 4 (apply raises_bind; [apply raises_store|]; intros _).
  apply raises_bind; [by apply deleteUserIps_raises|]. intros _.
  apply raises_bind; [by apply deleteUserFromFollowers_raises|]. intros _.
  apply raises_bind; [by apply deleteUserFromFollowedTopics_raises|]. intros _.
  apply raises_bind; [by apply deleteUserFromIgnoredTopics_raises|]. intros _.
  apply raises_bind; [by apply deleteUserFromFollowedTags_raises|]. intros _.
  apply raises_bind; [by apply deleteImages_raises|]. intros _.
  do 4 (apply raises_bind; [by apply raises_call|]; intros _).
  apply raises_bind; [apply raises_store|]. intros _.
  apply raises_bind; [apply raises_guard_remove|]. intros _.
  apply raises_ret.
Qed.

(** After a successful [User.deleteContent] the uid has no own guard
    entry. *)
Lemma deleteContent_ok_guard handle upload_path fuel callerUid uid w w1 :
  deleteContent handle upload_path fuel callerUid uid w = (Ok tt, w1) →
  le0 (parseInt uid) = false ∧
  Guard.truthy (Guard.get (deletesInProgress w) uid) = false ∧
  deletesInProgress w1 = delete uid (deletesInProgress w).
Proof.
  intros Ec. destruct (le0 (parseInt uid)) eqn:Hv.
  { rewrite deleteContent_rejects in Ec by done. discriminate Ec. }
  destruct (Guard.truthy (Guard.get (deletesInProgress w) uid)) eqn:Hg.
  { rewrite deleteContent_blocked in Ec by done. discriminate Ec. }
  split; [done|]. split; [done|].
  pose proof (deleteContent_guard handle upload_path fuel callerUid uid w Hv Hg)
    as H.
  by rewrite Ec in H.
Qed.

Lemma guard_marks_deleted (g : gmap string phase) uid p :
  Guard.marks p (Guard.get (delete uid g) uid) = false.
Proof. unfold Guard.get. rewrite lookup_delete_eq. by case_match. Qed.

(** X10: [User.delete] reports AlreadyDeleting (when no collaborator throws
    that error) only from the entry check of its content phase: the guard
    read for the uid was truthy and nothing at all was done.  The check of
    the account phase never fires inside [User.delete]. *)
Theorem delete_already_deleting handle upload_path fuel callerUid uid w w' :
  ¬ external handle AlreadyDeleting →
  delete_ handle upload_path fuel callerUid uid w = (Throw AlreadyDeleting, w') →
  Guard.truthy (Guard.get (deletesInProgress w) uid) = true ∧ w' = w.
Proof.
  intros Hext. unfold delete_, bind.
  destruct (deleteContent handle upload_path fuel callerUid uid w)
    as [[[]|e|] w1] eqn:Ec.
  - intros Ea. destruct (deleteContent_ok_guard _ _ _ _ _ _ _ Ec) as (_ & _ & Hg).
    apply deleteAccount_free_raises in Ea
      as [Hn|[[m Hn]|Hn]]; [discriminate Hn|discriminate Hn|done|].
    rewrite Hg. apply guard_marks_deleted.
  - intros [= -> <-].
    destruct (le0 (parseInt uid)) eqn:Hv.
    { rewrite deleteContent_rejects in Ec by done. discriminate Ec. }
    destruct (Guard.truthy (Guard.get (deletesInProgress w) uid)) eqn:Hg.
    { rewrite deleteContent_blocked in Ec by done. by injection Ec as <-. }
    apply deleteContent_free_raises in Ec as [[m Hn]|Hn];
      [discriminate Hn|done|done|done].
  - discriminate.
Qed.

Lemma delete_already_deleting_witness :
  Guard.truthy (Guard.get (deletesInProgress world_content_phase) "42") = true ∧
  world_content_phase = world_content_phase.
Proof.
  apply (delete_already_deleting quiet "/uploads" 3 "1" "42").
  - intros (c & s & H). discriminate H.
  - vm_compute. reflexivity.
Defined.

(** X11: when [User.delete] succeeds and no collaborator call of the
    content phase changes the user's record, the value returned is the
    record the store held when the call began; at the end the record is
    gone and the uid has no guard entry. *)
Theorem delete_returns_record handle upload_path fuel callerUid uid w
    userData w' :
  respects (λ s s', hashes s' !! ("user:" +:+ uid) = hashes s !! ("user:" +:+ uid))
           handle →
  delete_ handle upload_path fuel callerUid uid w = (Ok userData, w') →
  hashes (db w) !! ("user:" +:+ uid) = Some userData ∧
  hashes (db w') !! ("user:" +:+ uid) = None ∧
  deletesInProgress w' !! uid = None.
Proof.
  intros Hh. unfold delete_, bind.
  destruct (deleteContent handle upload_path fuel callerUid uid w)
    as [[[]|e|] w1] eqn:Ec; [|discriminate|discriminate].
  intros Ea.
  pose proof (deleteContent_reads _ handle upload_path fuel callerUid uid
                (λ s, eq_refl)
                (λ s1 s2 s3 H12 H23, eq_trans H23 H12) Hh w) as Hr.
  rewrite Ec in Hr. cbn [snd] in Hr.
  destruct (deleteAccount_ok _ _ _ _ _ _ Ea)
    as (_ & Hrec & _ & Hg & wN & Hdb & _).
  split; [by rewrite <- Hr|]. split.
  - rewrite Hdb. apply del_fold_gone. unfold deleteAccount_last_keys.
    set_solver.
  - rewrite Hg. apply lookup_delete_eq.
Qed.

Lemma delete_returns_record_witness :
  hashes (db world_alice) !! "user:42" = Some alice ∧
  hashes (db (delete_ quiet "/uploads" 3 "1" "42" world_alice).2) !! "user:42"
  = None ∧
  deletesInProgress (delete_ quiet "/uploads" 3 "1" "42" world_alice).2 !! "42"
  = None.
Proof.
  apply (delete_returns_record quiet "/uploads" 3 "1" "42" world_alice alice).
  - intros c s s' [= ->]. reflexivity.
  - vm_compute. reflexivity.
Defined.

(** ** [deleteQueued]: uids that match nothing, entries without an object *)

Lemma matches_non_numeric uid d : parseInt uid = None → matches uid d = false.
Proof.
  intros H. unfold matches. rewrite H. unfold strict_eq. by case_match.
Qed.

Lemma userQueuedIds_non_numeric uid data ids :
  parseInt uid = None → userQueuedIds uid data = inr ids → ids = [].
Proof.
  intros Hu. revert ids.
  induction data as [|[d|] data IH]; intros ids; cbn [userQueuedIds].
  - by intros [= <-].
  - destruct (userQueuedIds uid data) as [e|ids']; [discriminate|].
    rewrite matches_non_numeric by done. intros [= <-]. by apply IH.
  - discriminate.
Qed.

Lemma scan_non_numeric uid fuel : ∀ start w r w',
  parseInt uid = None →
  scan "post:queue"
    (λ deleteIds ids,
       let* data := db_.getObjects (map (λ id, "post:queue:" +:+ id) ids) in
       let* userQueued := lift (userQueuedIds uid data) in
       ret (deleteIds ++ userQueued))
    (mkOptions None (Some 500)) fuel start [] w = (Ok r, w') →
  r = [].
Proof.
  induction fuel as [|fuel IH]; intros start w r w' Hu; [discriminate|].
  rewrite scan_unfold. cbv zeta. intros E.
  apply bind_ok_inv in E as (ids & w1 & _ & E).
  destruct ids as [|id ids]; [by injection E as <- _|].
  apply bind_ok_inv in E as (acc' & w2 & E2 & E).
  apply bind_ok_inv in E2 as (data & w3 & _ & E2).
  apply bind_ok_inv in E2 as (q & w4 & Eq & E2).
  injection E2 as <- _.
  destruct (userQueuedIds uid data) as [e|ids'] eqn:Ed; [discriminate Eq|].
  injection Eq as <- _.
  apply (userQueuedIds_non_numeric _ _ _ Hu) in Ed as ->. cbn [app] in E.
  destruct (_ <? _) in E; [by injection E as <- _|].
  by eapply IH.
Qed.

Lemma queue_scan_emits uid fuel start acc :
  emits queue_read
    (scan "post:queue"
       (λ deleteIds ids,
          let* data := db_.getObjects (map (λ id, "post:queue:" +:+ id) ids) in
          let* userQueued := lift (userQueuedIds uid data) in
          ret (deleteIds ++ userQueued))
       (mkOptions None (Some 500)) fuel start acc).
Proof.
  apply emits_scan; [done|]. intros acc' ids.
  apply emits_bind; [by apply emits_store|]. intros data.
  apply emits_bind; [apply emits_lift|]. intros q. apply emits_ret.
Qed.

Lemma queue_scan_reads uid fuel start acc :
  preserves eq
    (scan "post:queue"
       (λ deleteIds ids,
          let* data := db_.getObjects (map (λ id, "post:queue:" +:+ id) ids) in
          let* userQueued := lift (userQueuedIds uid data) in
          ret (deleteIds ++ userQueued))
       (mkOptions None (Some 500)) fuel start acc).
Proof.
  assert (Ht : ∀ s1 s2 s3 : Store, s1 = s2 → s2 = s3 → s1 = s3)
    by (intros s1 s2 s3 -> ->; reflexivity).
  apply preserves_scan; [done|exact Ht|]. intros acc' ids.
  apply preserves_bind; [exact Ht|by apply preserves_query|]. intros data.
  apply preserves_bind; [exact Ht|by apply preserves_lift|]. intros q.
  by apply preserves_ret.
Qed.

(** X12: for a uid in which [parseInt] finds no number, no queue entry
    matches ([NaN === NaN] is false): [deleteQueued] only reads the queue;
    it calls [posts.removeFromQueue] for no entry and leaves the store as
    it was, whatever the queue holds and however the scan ends. *)
Theorem deleteQueued_non_numeric handle fuel uid w :
  parseInt uid = None →
  db (deleteQueued handle fuel uid w).2 = db w ∧
  ∃ l, log (deleteQueued handle fuel uid w).2 = log w ++ l ∧
       Forall queue_read l.
Proof.
  intros Hu.
  pose proof (queue_scan_reads uid fuel 0 [] w) as Hdb.
  destruct (queue_scan_emits uid fuel 0 [] w) as [_ Hlog].
  pose proof (scan_non_numeric uid fuel 0 w) as Hnil.
  unfold deleteQueued, processSortedSet, bind.
  destruct (scan _ _ _ fuel 0 [] w) as [[ids|e|] w1] eqn:Es;
    cbn [snd] in *; [|split; [symmetry; exact Hdb|exact Hlog]..].
  rewrite (Hnil ids w1 Hu eq_refl). cbn [eachSeries ret snd].
  split; [symmetry; exact Hdb|exact Hlog].
Qed.

Lemma deleteQueued_non_numeric_witness :
  db (deleteQueued quiet 3 "abc" queue_world).2 = db queue_world ∧
  ∃ l, log (deleteQueued quiet 3 "abc" queue_world).2 = log queue_world ++ l ∧
       Forall queue_read l.
Proof. apply (deleteQueued_non_numeric quiet 3 "abc" queue_world). reflexivity. Defined.

(** X13: when an id among the first 500 of the queue index has no object
    in the store, [deleteQueued] throws a [TypeError] (the filter reads
    [uid] of [null]) right after the first read of the objects: nothing is
    removed from the queue, whatever matched. *)
Theorem deleteQueued_missing_object handle fuel uid w qid :
  qid ∈ Db.range (Db.members (db w) "post:queue") 0 499 →
  hashes (db w) !! ("post:queue:" +:+ qid) = None →
  ∃ m,
    deleteQueued handle (S fuel) uid w =
      (Throw (TypeError m),
       mkWorld (deletesInProgress w) (db w)
         (log w ++
          [ Db (db_getSortedSetRange ["post:queue"] 0 499);
            Db (db_getObjects
                  (map (λ id, "post:queue:" +:+ id)
                       (Db.range (Db.members (db w) "post:queue") 0 499))) ])).
Proof.
  intros Hin Hnone. unfold deleteQueued, processSortedSet.
  rewrite scan_unfold. cbv zeta.
  cbn [batch alwaysStartAt default from_option id].
  unfold db_.getSortedSetRange, db_.getObjects.
  rewrite !bind_assoc. rewrite (bind_ok _ _ _ _ _ (query_run _ _ _)).
  change (0 + 500 - 1) with 499. cbn [db].
  destruct (Db.range (Db.members (db w) "post:queue") 0 499) as [|i ids] eqn:Er;
    [by apply elem_of_nil in Hin|].
  rewrite !bind_assoc. rewrite (bind_ok _ _ _ _ _ (query_run _ _ _)). cbn [db].
  destruct (userQueuedIds_null uid
              (map (Db.getObject (db w))
                   (map (λ id, "post:queue:" +:+ id) (i :: ids)))) as [m Hm].
  { apply list_elem_of_fmap. exists ("post:queue:" +:+ qid). split; [done|].
    apply list_elem_of_fmap. by exists qid. }
  exists m. rewrite !bind_assoc. unfold bind at 1. rewrite Hm.
  cbn [lift throw deletesInProgress log]. by rewrite <- app_assoc.
Qed.

Lemma deleteQueued_missing_object_witness :
  ∃ m,
    deleteQueued quiet 1 "42" orphan_world =
      (Throw (TypeError m),
       mkWorld (deletesInProgress orphan_world) (db orphan_world)
         (log orphan_world ++
          [ Db (db_getSortedSetRange ["post:queue"] 0 499);
            Db (db_getObjects
                  (map (λ id, "post:queue:" +:+ id)
                       (Db.range (Db.members (db orphan_world) "post:queue")
                                 0 499))) ])).
Proof.
  apply (deleteQueued_missing_object quiet 0 "42" orphan_world "9").
  - apply (bool_decide_unpack _). vm_compute. exact I.
  - reflexivity.
Defined.

(** ** [deleteVotes]: one [posts.unvote] for each post voted on *)

Lemma elem_of_without v x (l : list string) :
  x ∈ Db.without v l ↔ x ≠ v ∧ x ∈ l.
Proof. unfold Db.without. by rewrite list_elem_of_filter. Qed.

Lemma elem_of_uniq x l : x ∈ uniq l ↔ x ∈ l.
Proof.
  induction l as [|y l IH]; [done|]. cbn [uniq].
  rewrite !elem_of_cons, elem_of_without, IH.
  destruct (decide (x = y)); tauto.
Qed.

Lemma NoDup_uniq l : NoDup (uniq l).
Proof.
  induction l as [|y l IH]; cbn [uniq]; [constructor|].
  constructor; [apply without_not_elem|].
  unfold Db.without. by apply NoDup_filter.
Qed.

Lemma eachSeries_calls handle {A} (f : A → Call) (l : list A) w w' :
  eachSeries l (λ x, call handle (f x)) w = (Ok tt, w') →
  log w' = log w ++ map (λ x, Ext (f x)) l.
Proof.
  revert w. induction l as [|x l IH]; intros w; cbn [eachSeries map].
  - intros [= <-]. by rewrite app_nil_r.
  - intros E. apply bind_ok_inv in E as ([] & w1 & E1 & E).
    rewrite call_run in E1.
    destruct (handle (f x) (db w)) as [e|s]; [discriminate E1|].
    injection E1 as <-. apply IH in E. rewrite E. cbn [log].
    by rewrite <- app_assoc.
Qed.

(** X14: a [deleteVotes] that succeeds has read the two vote sets of the
    user and then called [posts.unvote] once for each post in either of
    them: no post twice (a post in both sets is undone once), no empty id,
    and no other post. *)
Theorem deleteVotes_unvotes handle uid w w' :
  deleteVotes handle uid w = (Ok tt, w') →
  ∃ pids,
    log w' =
      log w ++
      [ Db (db_getSortedSetRange ["uid:" +:+ uid +:+ ":upvote"] 0 (-1));
        Db (db_getSortedSetRange ["uid:" +:+ uid +:+ ":downvote"] 0 (-1)) ] ++
      map (λ pid, Ext (posts_unvote pid uid)) pids ∧
    NoDup pids ∧
    ∀ pid, pid ∈ pids ↔
           pid ≠ "" ∧
           (pid ∈ Db.members (db w) ("uid:" +:+ uid +:+ ":upvote") ∨
            pid ∈ Db.members (db w) ("uid:" +:+ uid +:+ ":downvote")).
Proof.
  unfold deleteVotes, db_.getSortedSetRange. intros E.
  rewrite (bind_ok _ _ _ _ _ (query_run _ _ _)) in E.
  rewrite (bind_ok _ _ _ _ _ (query_run _ _ _)) in E.
  cbn [db] in E. rewrite !range_all in E.
  apply (eachSeries_calls handle (λ pid, posts_unvote pid uid)) in E.
  cbn [log] in E. eexists. split; [|split].
  - rewrite E, <- !app_assoc. reflexivity.
  - apply NoDup_uniq.
  - intros pid. rewrite elem_of_uniq, list_elem_of_filter, elem_of_app. tauto.
Qed.

Lemma deleteVotes_unvotes_witness :
  ∃ pids,
    log (deleteVotes quiet "42" world_votes).2 =
      log world_votes ++
      [ Db (db_getSortedSetRange ["uid:" +:+ "42" +:+ ":upvote"] 0 (-1));
        Db (db_getSortedSetRange ["uid:" +:+ "42" +:+ ":downvote"] 0 (-1)) ] ++
      map (λ pid, Ext (posts_unvote pid "42")) pids ∧
    NoDup pids ∧
    ∀ pid, pid ∈ pids ↔
           pid ≠ "" ∧
           (pid ∈ Db.members (db world_votes) ("uid:" +:+ "42" +:+ ":upvote") ∨
            pid ∈ Db.members (db world_votes) ("uid:" +:+ "42" +:+ ":downvote")).
Proof.
  apply (deleteVotes_unvotes quiet "42" world_votes). vm_compute. reflexivity.
Defined.

(** ** [deleteUserIps], followed and ignored topics, followed tags *)

Lemma members_del key s k :
  Db.members (Db.del key s) k = if decide (k = key) then [] else Db.members s k.
Proof.
  unfold Db.members, Db.del. cbn [zsets]. case_decide as Hk.
  - subst k. by rewrite lookup_delete_eq.
  - by rewrite lookup_delete_ne.
Qed.

Lemma sets_srem_fold v keys s k :
  sets (foldr (λ k, Db.srem k v) s keys) !! k =
  if decide (k ∈ keys) then Db.without v <$> sets s !! k else sets s !! k.
Proof.
  induction keys as [|k' keys IH].
  { by rewrite decide_False by apply not_elem_of_nil. }
  cbn [foldr]. unfold Db.srem at 1. cbn [sets].
  destruct (decide (k' = k)) as [->|Hne].
  - rewrite lookup_alter_eq, IH.
    destruct (decide (k ∈ k :: keys)) as [_|Hn]; [|exfalso; apply Hn; left].
    case_decide; [|done].
    destruct (sets s !! k) as [l|]; [|done]. cbn. by rewrite without_idemp.
  - rewrite lookup_alter_ne, IH by done.
    case_decide as Hin.
    + by rewrite decide_True by (by right).
    + rewrite decide_False; [done|]. rewrite elem_of_cons.
      intros [?|?]; [by subst|done].
Qed.

Lemma zsets_srem_fold v keys s :
  zsets (foldr (λ k, Db.srem k v) s keys) = zsets s.
Proof. induction keys as [|k keys IH]; simpl; done. Qed.

Lemma sets_zrem_fold v keys s :
  sets (foldr (λ k, Db.zrem k v) s keys) = sets s.
Proof. induction keys as [|k keys IH]; simpl; done. Qed.

(** X15: after a [deleteUserIps] that succeeds, the uid is in the uid set
    of none of the addresses the user's address list held, the address
    list itself is gone, and that is all: no other member left any sorted
    set, and no object other than one stored under the key of the address
    list changed.  The requests were the read of the list, one removal for
    all the address sets, and the deletion of the list. *)
Theorem deleteUserIps_removes uid w w' :
  deleteUserIps uid w = (Ok tt, w') →
  (∀ ip, ip ∈ Db.members (db w) ("uid:" +:+ uid +:+ ":ip") →
     uid ∉ Db.members (db w') ("ip:" +:+ ip +:+ ":uid")) ∧
  zsets (db w') !! ("uid:" +:+ uid +:+ ":ip") = None ∧
  (∀ k x, k ≠ "uid:" +:+ uid +:+ ":ip" → x ≠ uid →
     x ∈ Db.members (db w') k ↔ x ∈ Db.members (db w) k) ∧
  (∀ k, k ≠ "uid:" +:+ uid +:+ ":ip" →
     hashes (db w') !! k = hashes (db w) !! k) ∧
  log w' =
    log w ++
    [ Db (db_getSortedSetRange ["uid:" +:+ uid +:+ ":ip"] 0 (-1));
      Db (db_sortedSetsRemove
            (map (λ ip, "ip:" +:+ ip +:+ ":uid")
                 (Db.members (db w) ("uid:" +:+ uid +:+ ":ip"))) uid);
      Db (db_delete ("uid:" +:+ uid +:+ ":ip")) ].
Proof.
  unfold deleteUserIps, db_.getSortedSetRange, db_.sortedSetsRemove, db_.delete.
  rewrite (bind_ok _ _ _ _ _ (query_run _ _ _)).
  rewrite (bind_ok _ _ _ _ _ (update_run _ _ _)).
  rewrite update_run. cbn [db deletesInProgress log]. rewrite range_all.
  intros [= <-]. cbn [db log].
  set (key := "uid:" +:+ uid +:+ ":ip").
  split; [|split; [|split; [|split]]].
  - intros ip Hip. rewrite members_del. case_decide; [apply not_elem_of_nil|].
    rewrite members_zrem_fold, decide_True; [apply without_not_elem|].
    apply list_elem_of_fmap. by exists ip.
  - unfold Db.del. cbn [zsets]. apply lookup_delete_eq.
  - intros k x Hk Hx. rewrite members_del, decide_False by done.
    rewrite members_zrem_fold. case_decide; [|done].
    rewrite elem_of_without. tauto.
  - intros k Hk. unfold Db.del. cbn [hashes].
    rewrite lookup_delete_ne by done.
    by rewrite (hashes_zrem_fold id (λ _, uid)).
  - by rewrite <- !app_assoc.
Qed.

Lemma deleteUserIps_removes_witness :
  ("42" ∉ Db.members (db (deleteUserIps "42" world_traces).2) "ip:10.0.0.1:uid") ∧
  ("7" ∈ Db.members (db (deleteUserIps "42" world_traces).2) "ip:10.0.0.1:uid" ↔
   "7" ∈ Db.members (db world_traces) "ip:10.0.0.1:uid") ∧
  hashes (db (deleteUserIps "42" world_traces).2) !! "user:42"
  = hashes (db world_traces) !! "user:42".
Proof.
  destruct (deleteUserIps_removes "42" world_traces
              (deleteUserIps "42" world_traces).2)
    as (H1 & _ & H2 & H3 & _); [vm_compute; reflexivity|].
  split; [|split].
  - apply (H1 "10.0.0.1"). apply (bool_decide_unpack _). vm_compute. exact I.
  - apply (H2 "ip:10.0.0.1:uid" "7"); discriminate.
  - apply (H3 "user:42"). discriminate.
Defined.

Lemma setsRemove_listed (idx : string) (f : string → string) uid w w' :
  (let* tids := db_.getSortedSetRange idx 0 (-1) in
   db_.setsRemove (map f tids) uid) w = (Ok tt, w') →
  (∀ tid l, tid ∈ Db.members (db w) idx →
     sets (db w') !! f tid = Some l → uid ∉ l) ∧
  (∀ k l, sets (db w') !! k = Some l →
     ∃ l0, sets (db w) !! k = Some l0 ∧ ∀ x, x ≠ uid → x ∈ l ↔ x ∈ l0) ∧
  zsets (db w') = zsets (db w) ∧
  hashes (db w') = hashes (db w) ∧
  log w' =
    log w ++ [ Db (db_getSortedSetRange [idx] 0 (-1));
               Db (db_setsRemove (map f (Db.members (db w) idx)) uid) ].
Proof.
  unfold db_.getSortedSetRange, db_.setsRemove.
  rewrite (bind_ok _ _ _ _ _ (query_run _ _ _)).
  rewrite update_run. cbn [db deletesInProgress log]. rewrite range_all.
  intros [= <-]. cbn [db log].
  split; [|split; [|split; [|split]]].
  - intros tid l Hin. rewrite sets_srem_fold, decide_True.
    + destruct (sets (db w) !! f tid) as [l0|]; [|discriminate].
      intros [= <-]. apply without_not_elem.
    + apply list_elem_of_fmap. by exists tid.
  - intros k l. rewrite sets_srem_fold. case_decide; [|by eauto].
    destruct (sets (db w) !! k) as [l0|]; [|discriminate].
    intros [= <-]. exists l0. split; [done|]. intros x Hx.
    rewrite elem_of_without. tauto.
  - apply zsets_srem_fold.
  - apply hashes_srem_fold.
  - by rewrite <- app_assoc.
Qed.

(** X16: after a [deleteUserFromFollowedTopics]
    ([deleteUserFromIgnoredTopics]) that succeeds, the uid is in the
    followers set (ignorers set) of none of the topics the user's list
    held; every set that exists afterwards existed before with the same
    members other than the uid; sorted sets and objects are untouched: the
    user's own list of topics is still there.  The requests were the read
    of the list and one removal for all the topics' sets. *)
Theorem deleteUserFromTopics_removes uid w w' :
  (deleteUserFromFollowedTopics uid w = (Ok tt, w') →
   (∀ tid l, tid ∈ Db.members (db w) ("uid:" +:+ uid +:+ ":followed_tids") →
      sets (db w') !! ("tid:" +:+ tid +:+ ":followers") = Some l → uid ∉ l) ∧
   (∀ k l, sets (db w') !! k = Some l →
      ∃ l0, sets (db w) !! k = Some l0 ∧ ∀ x, x ≠ uid → x ∈ l ↔ x ∈ l0) ∧
   zsets (db w') = zsets (db w) ∧
   hashes (db w') = hashes (db w) ∧
   log w' =
     log w ++
     [ Db (db_getSortedSetRange ["uid:" +:+ uid +:+ ":followed_tids"] 0 (-1));
       Db (db_setsRemove
             (map (λ tid, "tid:" +:+ tid +:+ ":followers")
                  (Db.members (db w) ("uid:" +:+ uid +:+ ":followed_tids")))
             uid) ]) ∧
  (deleteUserFromIgnoredTopics uid w = (Ok tt, w') →
   (∀ tid l, tid ∈ Db.members (db w) ("uid:" +:+ uid +:+ ":ignored_tids") →
      sets (db w') !! ("tid:" +:+ tid +:+ ":ignorers") = Some l → uid ∉ l) ∧
   (∀ k l, sets (db w') !! k = Some l →
      ∃ l0, sets (db w) !! k = Some l0 ∧ ∀ x, x ≠ uid → x ∈ l ↔ x ∈ l0) ∧
   zsets (db w') = zsets (db w) ∧
   hashes (db w') = hashes (db w) ∧
   log w' =
     log w ++
     [ Db (db_getSortedSetRange ["uid:" +:+ uid +:+ ":ignored_tids"] 0 (-1));
       Db (db_setsRemove
             (map (λ tid, "tid:" +:+ tid +:+ ":ignorers")
                  (Db.members (db w) ("uid:" +:+ uid +:+ ":ignored_tids")))
             uid) ]).
Proof.
  split.
  - apply (setsRemove_listed ("uid:" +:+ uid +:+ ":followed_tids")
             (λ tid, "tid:" +:+ tid +:+ ":followers")).
  - apply (setsRemove_listed ("uid:" +:+ uid +:+ ":ignored_tids")
             (λ tid, "tid:" +:+ tid +:+ ":ignorers")).
Qed.

Lemma deleteUserFromTopics_removes_witness :
  (∀ l, sets (db (deleteUserFromFollowedTopics "42" world_traces).2)
          !! "tid:1:followers" = Some l → "42" ∉ l) ∧
  (∀ l, sets (db (deleteUserFromIgnoredTopics "42" world_traces).2)
          !! "tid:2:ignorers" = Some l → "42" ∉ l).
Proof.
  destruct (deleteUserFromTopics_removes "42" world_traces
              (deleteUserFromFollowedTopics "42" world_traces).2)
    as [H1 _].
  destruct (deleteUserFromTopics_removes "42" world_traces
              (deleteUserFromIgnoredTopics "42" world_traces).2)
    as [_ H2].
  destruct H1 as (H1 & _); [vm_compute; reflexivity|].
  destruct H2 as (H2 & _); [vm_compute; reflexivity|].
  split.
  - intros l. apply (H1 "1").
    apply (bool_decide_unpack _). vm_compute. exact I.
  - intros l. apply (H2 "2").
    apply (bool_decide_unpack _). vm_compute. exact I.
Defined.

(** X17: after a [deleteUserFromFollowedTags] that succeeds, the uid is in
    the followers sorted set of none of the tags the user's list held; no
    other member left any sorted set; plain sets and objects are
    untouched.  The requests were the read of the list and one removal for
    all the tags' sets. *)
Theorem deleteUserFromFollowedTags_removes uid w w' :
  deleteUserFromFollowedTags uid w = (Ok tt, w') →
  (∀ tag, tag ∈ Db.members (db w) ("uid:" +:+ uid +:+ ":followed_tags") →
     uid ∉ Db.members (db w') ("tag:" +:+ tag +:+ ":followers")) ∧
  (∀ k x, x ≠ uid → x ∈ Db.members (db w') k ↔ x ∈ Db.members (db w) k) ∧
  sets (db w') = sets (db w) ∧
  hashes (db w') = hashes (db w) ∧
  log w' =
    log w ++
    [ Db (db_getSortedSetRange ["uid:" +:+ uid +:+ ":followed_tags"] 0 (-1));
      Db (db_sortedSetsRemove
            (map (λ tag, "tag:" +:+ tag +:+ ":followers")
                 (Db.members (db w) ("uid:" +:+ uid +:+ ":followed_tags")))
            uid) ].
Proof.
  unfold deleteUserFromFollowedTags, db_.getSortedSetRange, db_.sortedSetsRemove.
  rewrite (bind_ok _ _ _ _ _ (query_run _ _ _)).
  rewrite update_run. cbn [db deletesInProgress log]. rewrite range_all.
  intros [= <-]. cbn [db log].
  split; [|split; [|split; [|split]]].
  - intros tag Hin. rewrite members_zrem_fold, decide_True;
      [apply without_not_elem|].
    apply list_elem_of_fmap. by exists tag.
  - intros k x Hx. rewrite members_zrem_fold. case_decide; [|done].
    rewrite elem_of_without. tauto.
  - apply sets_zrem_fold.
  - apply (hashes_zrem_fold id (λ _, uid)).
  - by rewrite <- app_assoc.
Qed.

Lemma deleteUserFromFollowedTags_removes_witness :
  ("42" ∉ Db.members (db (deleteUserFromFollowedTags "42" world_traces).2)
                     "tag:news:followers") ∧
  ("7" ∈ Db.members (db (deleteUserFromFollowedTags "42" world_traces).2)
                    "tag:news:followers" ↔
   "7" ∈ Db.members (db world_traces) "tag:news:followers").
Proof.
  destruct (deleteUserFromFollowedTags_removes "42" world_traces
              (deleteUserFromFollowedTags "42" world_traces).2)
    as (H1 & H2 & _); [vm_compute; reflexivity|].
  split.
  - apply (H1 "news"). apply (bool_decide_unpack _). vm_compute. exact I.
  - apply (H2 "tag:news:followers" "7"). discriminate.
Defined.

(** ** Records [User.deleteAccount] cannot delete *)

Lemma toLowerCase_of_string v s : toLowerCase_of v = inr s → is_string v = true.
Proof. by destruct v. Qed.

Lemma bulkRemove_strings uid userData l :
  bulkRemove uid userData = inr l →
  is_string (Db.prop userData "username") = true ∧
  (truthy (Db.prop userData "email") = true →
   is_string (Db.prop userData "email") = true) ∧
  (truthy (Db.prop userData "fullname") = true →
   is_string (Db.prop userData "fullname") = true).
Proof.
  unfold bulkRemove.
  destruct (toLowerCase_of (Db.prop userData "username")) as [e|u] eqn:Eu;
    [discriminate|].
  destruct (truthy (Db.prop userData "email")) eqn:Te;
    [destruct (toLowerCase_of (Db.prop userData "email")) as [e|m] eqn:Ee;
       [discriminate|]|];
    (destruct (truthy (Db.prop userData "fullname")) eqn:Tf;
       [destruct (toLowerCase_of (Db.prop userData "fullname")) as [e|f] eqn:Ef;
          [discriminate|]|]);
    intros _; repeat split; intros; try discriminate;
    by eapply toLowerCase_of_string.
Qed.

(** X18: [User.deleteAccount] succeeds only for a record whose [username]
    is a string and whose [email] and [fullname], when truthy, are strings:
    [toLowerCase] is called on them, and a value without that method (a
    number) ends the call with a [TypeError] instead. *)
Theorem deleteAccount_needs_strings handle upload_path uid w userData w' :
  deleteAccount handle upload_path uid w = (Ok userData, w') →
  is_string (Db.prop userData "username") = true ∧
  (truthy (Db.prop userData "email") = true →
   is_string (Db.prop userData "email") = true) ∧
  (truthy (Db.prop userData "fullname") = true →
   is_string (Db.prop userData "fullname") = true).
Proof.
  intros E.
  destruct (deleteAccount_bulkRemove _ _ _ _ _ _ E) as (l & Hb & _).
  by eapply bulkRemove_strings.
Qed.

Lemma deleteAccount_needs_strings_witness :
  is_string (Db.prop alice "username") = true ∧
  (truthy (Db.prop alice "email") = true →
   is_string (Db.prop alice "email") = true) ∧
  (truthy (Db.prop alice "fullname") = true →
   is_string (Db.prop alice "fullname") = true).
Proof.
  apply (deleteAccount_needs_strings quiet "/uploads" "42" world_alice alice
           (deleteAccount quiet "/uploads" "42" world_alice).2).
  vm_compute. reflexivity.
Defined.

(** A record with a numeric full name: the call ends with a [TypeError]
    and the record stays. *)
Example deleteAccount_numeric_fullname :
  let w := mkWorld ∅ (mkStore ∅ (<["user:9" := carol]> ∅) ∅ in_order) [] in
  (∃ m, (deleteAccount quiet "/uploads" "9" w).1 = Throw (TypeError m)) ∧
  hashes (db (deleteAccount quiet "/uploads" "9" w).2) !! "user:9" = Some carol.
Proof. split; [eexists|]; vm_compute; reflexivity. Qed.

(** ** Uids that name a property of [Object.prototype] *)

Lemma inherited_not_numeric uid :
  inherited uid = true → le0 (parseInt uid) = false.
Proof.
  unfold inherited. intros H. apply bool_decide_eq_true in H.
  unfold Object_prototype in H.
  repeat (apply elem_of_cons in H as [->|H]; [vm_compute; reflexivity|]).
  by apply elem_of_nil in H.
Qed.

Lemma guard_inherited (g : gmap string phase) uid :
  inherited uid = true → Guard.truthy (Guard.get g uid) = true.
Proof. intros H. unfold Guard.get. rewrite H. by destruct (g !! uid). Qed.

(** X19: for a uid that names a property every plain object inherits
    (["constructor"], ["toString"], ...), the guard read of
    [User.deleteContent] is truthy although no deletion is in progress:
    [User.deleteContent] and [User.delete] fail with AlreadyDeleting in any
    world, having done nothing. *)
Theorem deleteContent_inherited_name handle upload_path fuel callerUid uid w :
  inherited uid = true →
  deleteContent handle upload_path fuel callerUid uid w
  = (Throw AlreadyDeleting, w) ∧
  delete_ handle upload_path fuel callerUid uid w = (Throw AlreadyDeleting, w).
Proof.
  intros H.
  assert (E : deleteContent handle upload_path fuel callerUid uid w
              = (Throw AlreadyDeleting, w)).
  { apply deleteContent_blocked;
      [by apply inherited_not_numeric | by apply guard_inherited]. }
  split; [exact E|]. unfold delete_. by rewrite (bind_throw _ _ _ _ _ E).
Qed.

Lemma deleteContent_inherited_name_witness :
  deleteContent quiet "/uploads" 3 "1" "constructor" world0
  = (Throw AlreadyDeleting, world0) ∧
  delete_ quiet "/uploads" 3 "1" "constructor" world0
  = (Throw AlreadyDeleting, world0).
Proof.
  apply (deleteContent_inherited_name quiet "/uploads" 3 "1" "constructor" world0).
  reflexivity.
Defined.

(** ** [deletePosts] and [deleteTopics]: the first batch *)

Lemma eachSeries_stops handle {A} (f : A → Call) pre x post e : ∀ w,
  (∀ y s, y ∈ pre → ∃ s', handle (f y) s = inr s') →
  (∀ s, handle (f x) s = inl e) →
  ∃ s',
    eachSeries (pre ++ x :: post) (λ y, call handle (f y)) w =
      (Throw e,
       mkWorld (deletesInProgress w) s'
         (log w ++ map (λ y, Ext (f y)) (pre ++ [x]))).
Proof.
  induction pre as [|y pre IH]; intros w Hpre Hx; cbn [app eachSeries map].
  - exists (db w). unfold bind. rewrite call_run, Hx. done.
  - destruct (Hpre y (db w)) as [s1 Hy]; [left|].
    unfold bind at 1. rewrite call_run, Hy.
    destruct (IH (mkWorld (deletesInProgress w) s1 (log w ++ [Ext (f y)])))
      as [s' ->]; [|done|].
    { intros z s Hz. apply Hpre. by right. }
    exists s'. cbn [deletesInProgress log]. by rewrite <- app_assoc.
Qed.

(** X20: [deleteTopics] purges the topics of the first batch one after the
    other, in the order of the set, and stops at the first purge that
    fails: the call ends with that error, the topics before it have been
    purged, and no purge is asked for any topic after it. *)
Theorem deleteTopics_stops_at_failure handle fuel callerUid uid w pre tid post e :
  Db.range (Db.members (db w) ("uid:" +:+ uid +:+ ":topics")) 0 499
  = pre ++ tid :: post →
  (∀ t s, t ∈ pre → ∃ s', handle (topics_purge t callerUid) s = inr s') →
  (∀ s, handle (topics_purge tid callerUid) s = inl e) →
  ∃ s',
    deleteTopics handle (S fuel) callerUid uid w =
      (Throw e,
       mkWorld (deletesInProgress w) s'
         (log w ++
          Db (db_getSortedSetRange ["uid:" +:+ uid +:+ ":topics"] 0 499)
          :: map (λ t, Ext (topics_purge t callerUid)) (pre ++ [tid]))).
Proof.
  intros Hr Hpre Htid. unfold deleteTopics, processSortedSet.
  rewrite scan_unfold. cbv zeta.
  cbn [batch alwaysStartAt default from_option id].
  unfold db_.getSortedSetRange.
  rewrite (bind_ok _ _ _ _ _ (query_run _ _ _)).
  change (0 + DEFAULT_BATCH_SIZE - 1) with 499. cbn [db]. rewrite Hr.
  destruct (eachSeries_stops handle (λ t, topics_purge t callerUid)
              pre tid post e
              (mkWorld (deletesInProgress w) (db w)
                 (log w ++ [Db (db_getSortedSetRange
                                  ["uid:" +:+ uid +:+ ":topics"] 0 499)]))
              Hpre Htid) as [s' Hs].
  exists s'.
  destruct (pre ++ tid :: post) as [|t0 ts] eqn:El;
    [by destruct pre|].
  rewrite (bind_throw _ _ _ _ _ Hs). cbn [deletesInProgress log].
  by rewrite <- app_assoc.
Qed.

Lemma deleteTopics_stops_at_failure_witness :
  ∃ s',
    deleteTopics topic_purge_fails 1 "1" "42" world_topics =
      (Throw (Error "purge failed"),
       mkWorld (deletesInProgress world_topics) s'
         (log world_topics ++
          Db (db_getSortedSetRange ["uid:" +:+ "42" +:+ ":topics"] 0 499)
          :: map (λ t, Ext (topics_purge t "1")) (["1"] ++ ["2"]))).
Proof.
  apply (deleteTopics_stops_at_failure topic_purge_fails 0 "1" "42"
           world_topics ["1"] "2" ["3"] (Error "purge failed")).
  - vm_compute. reflexivity.
  - intros t s Ht. apply list_elem_of_singleton in Ht as ->. by exists s.
  - intros s. reflexivity.
Defined.

(** X21: [deletePosts] reads the first 500 ids of the user's post set.
    When there is none it succeeds without a purge; otherwise it hands the
    whole batch, in one call and on behalf of the caller, to
    [posts.purge], and when that call fails ends with its error, having
    done nothing else. *)
Theorem deletePosts_first_batch handle fuel callerUid uid w :
  let key := "uid:" +:+ uid +:+ ":posts" in
  let pids := Db.range (Db.members (db w) key) 0 499 in
  (pids = [] →
   deletePosts handle (S fuel) callerUid uid w =
     (Ok tt,
      mkWorld (deletesInProgress w) (db w)
        (log w ++ [Db (db_getSortedSetRange [key] 0 499)]))) ∧
  (pids ≠ [] →
   ∃ l, log (deletePosts handle (S fuel) callerUid uid w).2 =
        log w ++ Db (db_getSortedSetRange [key] 0 499)
              :: Ext (posts_purge pids callerUid) :: l) ∧
  (∀ e, pids ≠ [] →
     handle (posts_purge pids callerUid) (db w) = inl e →
     deletePosts handle (S fuel) callerUid uid w =
       (Throw e,
        mkWorld (deletesInProgress w) (db w)
          (log w ++ [ Db (db_getSortedSetRange [key] 0 499);
                      Ext (posts_purge pids callerUid) ]))).
Proof.
  intros key pids. unfold deletePosts, processSortedSet.
  rewrite scan_unfold. cbv zeta.
  cbn [batch alwaysStartAt default from_option id].
  unfold db_.getSortedSetRange.
  rewrite (bind_ok _ _ _ _ _ (query_run _ _ _)).
  change (0 + 500 - 1) with 499. cbn [db]. fold key. subst pids.
  split; [|split].
  - intros ->. reflexivity.
  - intros Hne.
    destruct (Db.range (Db.members (db w) key) 0 499) as [|p ps] eqn:Ep;
      [done|].
    unfold bind at 1. rewrite call_run. cbn [db deletesInProgress log].
    destruct (handle (posts_purge (p :: ps) callerUid) (db w)) as [e|s1].
    + exists []. cbn [snd log]. by rewrite <- app_assoc.
    + case_match.
      * exists []. cbn [ret snd log]. by rewrite <- app_assoc.
      * match goal with |- context [scan ?k ?p ?o fuel ?st ?acc ?w1] =>
          destruct (emits_scan (posts_event uid) k p o
                      ltac:(done)
                      ltac:(intros ? ?; by apply emits_call)
                      fuel st acc w1) as [_ (l & Hl & _)] end.
        exists l. rewrite Hl. cbn [log]. by rewrite <- !app_assoc.
  - intros e Hne He.
    destruct (Db.range (Db.members (db w) key) 0 499) as [|p ps] eqn:Ep;
      [done|].
    unfold bind. rewrite call_run. cbn [db]. rewrite He.
    cbn [deletesInProgress db log]. by rewrite <- app_assoc.
Qed.

Lemma deletePosts_first_batch_witness :
  ∃ l, log (deletePosts quiet 1 "1" "42" world_topics).2 =
       log world_topics
       ++ Db (db_getSortedSetRange ["uid:" +:+ "42" +:+ ":posts"] 0 499)
       :: Ext (posts_purge
                 (Db.range (Db.members (db world_topics)
                              ("uid:" +:+ "42" +:+ ":posts")) 0 499) "1")
       :: l.
Proof.
  destruct (deletePosts_first_batch quiet 0 "1" "42" world_topics)
    as (_ & H & _).
  apply H. vm_compute. discriminate.
Defined.

(** ** The hook of [User.deleteAccount] *)

(** X22: for a user whose record has a username, the first three things
    [User.deleteAccount] does are the removal from the global sorted sets,
    the read of the record and the hook [static:user.delete], fired with
    the record just read: the hook runs on a store from which the uid has
    already left the global sets, and before any vote, chat, session or
    key is touched.  When the hook fails the call ends with its error right
    there, the guard entry in place. *)
Theorem deleteAccount_hook_first handle upload_path uid w userData :
  Guard.marks user_deleteAccount (Guard.get (deletesInProgress w) uid) = false →
  hashes (db w) !! ("user:" +:+ uid) = Some userData →
  truthy (Db.prop userData "username") = true →
  (∃ l, log (deleteAccount handle upload_path uid w).2 =
        log w ++
        [ Db (db_sortedSetsRemove removeFromSortedSets_keys uid);
          Db (db_getObject ("user:" +:+ uid));
          Ext (plugins_hooks_fire "static:user.delete" uid userData) ] ++ l) ∧
  (∀ e,
     handle (plugins_hooks_fire "static:user.delete" uid userData)
            (unlisted uid (db w)) = inl e →
     deleteAccount handle upload_path uid w =
       (Throw e,
        mkWorld (Guard.set uid user_deleteAccount (deletesInProgress w))
          (unlisted uid (db w))
          (log w ++
           [ Db (db_sortedSetsRemove removeFromSortedSets_keys uid);
             Db (db_getObject ("user:" +:+ uid));
             Ext (plugins_hooks_fire "static:user.delete" uid userData) ]))).
Proof.
  intros Hm Hrec Ht.
  destruct (deleteAccount handle upload_path uid w) as [r w'] eqn:E.
  cbn [snd]. unfold deleteAccount in E.
  rewrite (bind_ok (Guard.read_ uid) _ w _ w eq_refl), Hm in E.
  rewrite (bind_ok (Guard.assign uid user_deleteAccount) _ w tt _ eq_refl) in E.
  unfold removeFromSortedSets, db_.sortedSetsRemove in E.
  rewrite (bind_ok (update _ _) _ _ tt _ (update_run _ _ _)) in E.
  unfold db_.getObject at 1 in E.
  rewrite (bind_ok (query _ _) _ _ _ _ (query_run _ _ _)) in E.
  cbn [db deletesInProgress log] in E. fold (unlisted uid (db w)) in E.
  unfold Db.getObject in E. rewrite hashes_unlisted, Hrec, Ht in E.
  cbn [negb] in E.
  match type of E with bind (call handle ?c) ?k _ = _ =>
    assert (Hem : ∀ a, extends (k a)) end.
  { clear. intros _.
    repeat (apply (extends_bind any_event);
            [first [by eauto with model | solve [solve_emits]] | intros ?]).
    apply extends_remove_ret. }
  unfold bind at 1 in E. rewrite call_run in E.
  cbn [db deletesInProgress log] in E.
  destruct (handle (plugins_hooks_fire "static:user.delete" uid userData)
              (unlisted uid (db w))) as [e|s1].
  - injection E as <- <-. split; [|intros e' [= <-]; by rewrite <- !app_assoc].
    exists []. cbn [log]. by rewrite <- !app_assoc.
  - split; [|intros e' He; discriminate He].
    match type of E with ?t ?w1 = _ => destruct (Hem tt w1) as [l Hl] end.
    rewrite E in Hl. cbn [snd log] in Hl.
    exists l. rewrite Hl. by rewrite <- !app_assoc.
Qed.

Lemma deleteAccount_hook_first_witness :
  ∃ l, log (deleteAccount quiet "/uploads" "42" world_alice).2 =
       log world_alice ++
       [ Db (db_sortedSetsRemove removeFromSortedSets_keys "42");
         Db (db_getObject ("user:" +:+ "42"));
         Ext (plugins_hooks_fire "static:user.delete" "42" alice) ] ++ l.
Proof.
  destruct (deleteAccount_hook_first quiet "/uploads" "42" world_alice alice)
    as [H _]; [reflexivity|reflexivity|reflexivity|exact H].
Defined.
